(** * Tools Manager: the selection engine of the ToolsManager web part

    A shallow embedding of the React component [ToolsManager] and of its
    variants, and the properties of its selection state: the handlers
    [addTool], [removeTool] and [moveItem], the drag-and-drop handler, the
    derived list [filteredAvailableTools], and the reads and writes of the
    per-user file.

    Two variants of the component are embedded, each in a module of its own:
    - [ToolsManager]: [src/webparts/toolsManager/components/ToolsManager.tsx],
      whose handlers only set the state and whose writes come from a
      [useEffect] keyed on [selectedTools];
    - [FileBacked]: the variant that reads [selected-tools.json] with
      [handleToolsFile], writes it with [saveToolsToFile] from every handler
      and has the [dragDropEvents] of the selected list.
    The two remaining variants (static defaults, and static defaults with the
    SharePoint list as catalog) have handlers that are, letter for letter,
    those of [ToolsManager] without any write. *)

From Stdlib Require Import ZArith Lia Ascii String.
From stdpp Require Import base strings option list.

Local Open Scope string_scope.
Local Open Scope list_scope.

(** ** Data *)

(** [interface ITool { id; title; icon; url }], all four fields strings. The
    optional [key] of [IObjectWithKey] is never written by the component. *)
Record ITool := mkTool { id : string; title : string; icon : string; url : string }.

(** An element of a JavaScript array of tools as it exists at run time: a tool
    object, or [undefined] ([None]), which [moveItem] can put there. *)
Definition slot := option ITool.

(** The ids carried by an array: [undefined] carries none. *)
Definition ids (a : list slot) : list string := id <$> omap (λ s : slot, s) a.

(** The array whose elements are the tools of [l], all defined. *)
Definition tools (l : list ITool) : list slot := Some <$> l.

(** ** Completions: a value, or a thrown [TypeError] *)

Inductive completion (A : Type) : Type :=
  | Normal (a : A)
  | TypeError.
Arguments Normal {A} a.
Arguments TypeError {A}.

#[export] Instance completion_ret : MRet completion := λ A a, Normal a.
#[export] Instance completion_bind : MBind completion := λ A B f m,
  match m with
  | Normal a => f a
  | TypeError => TypeError
  end.

(** ** The array methods the component calls *)

Module JsArray.

(** [s.id] for an array element [s]: reading a property of [undefined] throws. *)
Definition get_id (s : slot) : completion string :=
  match s with
  | Some t => Normal (id t)
  | None => TypeError
  end.

(** [Array.prototype.splice(start, deleteCount, ...items)] for integer
    arguments: the array after the call and the array of removed elements.
    A negative [start] counts from the end; [start] and [deleteCount] are
    clamped to the array. *)
Definition splice (a : list slot) (start deleteCount : Z) (items : list slot)
  : list slot * list slot :=
  let len := Z.of_nat (length a) in
  let actualStart :=
    if (start <? 0)%Z then Z.max (len + start) 0 else Z.min start len in
  let actualDeleteCount := Z.min (Z.max deleteCount 0) (len - actualStart) in
  let k := Z.to_nat actualStart in
  let d := Z.to_nat actualDeleteCount in
  (take k a ++ items ++ drop (k + d) a, take d (drop k a)).

(** [const [x] = a]: the first element, [undefined] for an empty array. *)
Definition first (a : list slot) : slot :=
  match a with
  | [] => None
  | s :: _ => s
  end.

(** [Array.prototype.find]: the first element the callback accepts, or
    [undefined] ([None] here: the callbacks of the component never accept
    [undefined], they throw on it). *)
Fixpoint find (cb : slot → completion bool) (a : list slot) : completion (option ITool) :=
  match a with
  | [] => Normal None
  | s :: a' =>
      b ← cb s;
      if b : bool then Normal s else find cb a'
  end.

(** [Array.prototype.findIndex], counting from [i]: the index of the first
    element the callback accepts, or [-1]. *)
Fixpoint findIndex_from (i : Z) (cb : slot → completion bool) (a : list slot) : completion Z :=
  match a with
  | [] => Normal (-1)%Z
  | s :: a' =>
      b ← cb s;
      if b : bool then Normal i else findIndex_from (i + 1)%Z cb a'
  end.

Definition findIndex := findIndex_from 0%Z.

(** [Array.prototype.filter]: the elements the callback accepts, in order. *)
Fixpoint filter (cb : slot → completion bool) (a : list slot) : completion (list slot) :=
  match a with
  | [] => Normal []
  | s :: a' =>
      b ← cb s;
      r ← filter cb a';
      Normal (if b : bool then s :: r else r)
  end.

End JsArray.

(** ** Handlers *)

(** What a handler does to the world: it sets the state, and it asks the store
    to write. *)
Inductive effect : Type :=
  | SetSelectedTools (v : list slot)
  | Save (payload : list slot).

(** A handler run: the effects it performed, then how it ended. *)
Definition handler (A : Type) : Type := (list effect * completion A)%type.

#[export] Instance handler_ret : MRet handler := λ A a, ([], Normal a).
#[export] Instance handler_bind : MBind handler := λ A B f m,
  match m with
  | (w, Normal a) => let '(w', r) := f a in (w ++ w', r)
  | (w, TypeError) => (w, TypeError)
  end.

Definition lift {A} (c : completion A) : handler A := ([], c).
Definition setSelectedTools (v : list slot) : handler unit := ([SetSelectedTools v], Normal ()).
Definition emitSave (v : list slot) : handler unit := ([Save v], Normal ()).

(** The last value given to [setSelectedTools], if any. *)
Fixpoint last_set (w : list effect) : option (list slot) :=
  match w with
  | [] => None
  | SetSelectedTools v :: w' => Some (default v (last_set w'))
  | Save _ :: w' => last_set w'
  end.

(** The payloads of the writes, in order. *)
Fixpoint saved (w : list effect) : list (list slot) :=
  match w with
  | [] => []
  | SetSelectedTools _ :: w' => saved w'
  | Save p :: w' => p :: saved w'
  end.

(** *** [ToolsManager.tsx] *)

Module ToolsManager.

(** [moveItem(fromIndex, toIndex)], lines 217-223. *)
Definition moveItem (selectedTools : list slot) (fromIndex toIndex : Z) : handler unit :=
  if ((toIndex <? 0) || (toIndex >=? Z.of_nat (length selectedTools)))%Z then mret ()
  else
    let newTools := selectedTools in
    let '(newTools, removed) := JsArray.splice newTools fromIndex 1 [] in
    let movedItem := JsArray.first removed in
    let '(newTools, _) := JsArray.splice newTools toIndex 0 [movedItem] in
    setSelectedTools newTools.

(** [addTool(tool)], lines 225-229. *)
Definition addTool (selectedTools : list slot) (tool : ITool) : handler unit :=
  found ← lift (JsArray.find
                  (λ t, i ← JsArray.get_id t; mret (String.eqb i (id tool)))
                  selectedTools);
  if negb (bool_decide (is_Some found))
  then setSelectedTools (selectedTools ++ [Some tool])
  else mret ().

(** [removeTool(toolId)], lines 231-233. *)
Definition removeTool (selectedTools : list slot) (toolId : string) : handler unit :=
  kept ← lift (JsArray.filter
                 (λ tool, i ← JsArray.get_id tool; mret (negb (String.eqb i toolId)))
                 selectedTools);
  setSelectedTools kept.

End ToolsManager.

(** *** The variant backed by [selected-tools.json]

    The unnamed source part 001. Line numbers below are those of that file. *)

(** What the Graph client answers. [getClient] tells whether
    [msGraphClientFactory.getClient('3')] resolves, [get] what reading the
    file gives, [put] whether a write of the file is acknowledged. *)
Inductive response : Type :=
  | Found (data : list slot)
  | NotFound
  | Failed.

Record Graph := mkGraph { getClient : bool; get : response; put : bool }.

Module FileBacked.

(** The [defaultTools] of [handleToolsFile]; [absoluteUrl] is
    [props.context.pageContext.web.absoluteUrl]. *)
Definition defaultTools (absoluteUrl : string) : list ITool :=
  [ mkTool "1" "Workday" (absoluteUrl ++ "/_layouts/15/images/placeholder.png") "#";
    mkTool "2" "Time Mgr" (absoluteUrl ++ "/_layouts/15/images/placeholder.png") "#";
    mkTool "3" "Fidelity" (absoluteUrl ++ "/_layouts/15/images/placeholder.png") "#" ].

(** [handleToolsFile()], lines 106-135. The inner [catch] takes every failure
    of the read; a failure of [getClient] or of the [put] goes to the outer
    [catch], which logs. The [Save] is the [put] of the default tools. *)
Definition handleToolsFile (absoluteUrl : string) (g : Graph) : handler unit :=
  if getClient g then
    match get g with
    | Found tools => setSelectedTools tools
    | NotFound | Failed =>
        let defaultTools := tools (defaultTools absoluteUrl) in
        emitSave defaultTools;;
        if put g then setSelectedTools defaultTools else mret ()
    end
  else mret ().

(** [saveToolsToFile(tools)], lines 137-147: one write of the file with
    [tools]. Every failure is caught and logged; the caller does not wait for
    it and never sees its outcome. *)
Definition saveToolsToFile (tools : list slot) : handler unit := emitSave tools.

(** [moveItem(fromIndex, toIndex)], lines 232-240. *)
Definition moveItem (selectedTools : list slot) (fromIndex toIndex : Z) : handler unit :=
  if ((toIndex <? 0) || (toIndex >=? Z.of_nat (length selectedTools)))%Z then mret ()
  else
    let newTools := selectedTools in
    let '(newTools, removed) := JsArray.splice newTools fromIndex 1 [] in
    let movedItem := JsArray.first removed in
    let '(newTools, _) := JsArray.splice newTools toIndex 0 [movedItem] in
    setSelectedTools newTools;;
    saveToolsToFile newTools.

(** [addTool(tool)], lines 242-248. *)
Definition addTool (selectedTools : list slot) (tool : ITool) : handler unit :=
  found ← lift (JsArray.find
                  (λ t, i ← JsArray.get_id t; mret (String.eqb i (id tool)))
                  selectedTools);
  if negb (bool_decide (is_Some found))
  then
    let newTools := selectedTools ++ [Some tool] in
    setSelectedTools newTools;;
    saveToolsToFile newTools
  else mret ().

(** [removeTool(toolId)], lines 250-254. *)
Definition removeTool (selectedTools : list slot) (toolId : string) : handler unit :=
  newTools ← lift (JsArray.filter
                     (λ tool, i ← JsArray.get_id tool; mret (negb (String.eqb i toolId)))
                     selectedTools);
  setSelectedTools newTools;;
  saveToolsToFile newTools.

(** [dragDropEvents.onDrop(item, event)], lines 266-279, for an [item] with
    id [itemId] and an [event] whose target has the integer [dropIndex] as
    [data-index]. *)
Definition onDrop (selectedTools : list slot) (itemId : string) (dropIndex : Z) : handler unit :=
  draggedItemIndex ← lift (JsArray.findIndex
                             (λ tool, i ← JsArray.get_id tool; mret (String.eqb i itemId))
                             selectedTools);
  if negb (draggedItemIndex =? dropIndex)%Z
  then
    let newTools := selectedTools in
    let '(newTools, removed) := JsArray.splice newTools draggedItemIndex 1 [] in
    let draggedItem := JsArray.first removed in
    let '(newTools, _) := JsArray.splice newTools dropIndex 0 [draggedItem] in
    setSelectedTools newTools
  else mret ().

End FileBacked.

(** ** The engine: state, and one user action after another *)

(** The state a render sees, and the writes of the file started so far, each
    with its payload. A write is counted when it is started; the component
    keeps no record of whether it has settled. User actions come one after
    the other, each handler from the render that followed the action before
    it, so that it sees the state that action left. *)
Record Engine := mkEngine { selectedTools : list slot; writes : list (list slot) }.

Inductive op : Type :=
  | Add (tool : ITool)
  | Remove (toolId : string)
  | Move (fromIndex toIndex : Z).

(** The state after a handler ran: a thrown error leaves what was done before
    it; the next render sees the last value given to [setSelectedTools]. *)
Definition commit (st : Engine) (w : list effect) : Engine :=
  {| selectedTools := default (selectedTools st) (last_set w);
     writes := writes st ++ saved w |}.

Module ToolsManagerEngine.

Definition handle (selectedTools : list slot) (o : op) : handler unit :=
  match o with
  | Add tool => ToolsManager.addTool selectedTools tool
  | Remove toolId => ToolsManager.removeTool selectedTools toolId
  | Move fromIndex toIndex => ToolsManager.moveItem selectedTools fromIndex toIndex
  end.

(** [useEffect(() => { saveSelectedTools() }, [selectedTools])], lines
    126-140: after a render in which [selectedTools] is another array than in
    the render before, the file is written with it. Every array a handler
    gives to [setSelectedTools] is a new one. *)
Definition saveEffect (w : list effect) : list effect :=
  match last_set w with
  | Some v => [Save v]
  | None => []
  end.

Definition step (st : Engine) (o : op) : Engine :=
  let w := (handle (selectedTools st) o).1 in
  commit st (w ++ saveEffect w).

Definition run (st : Engine) (os : list op) : Engine := foldl step st os.

(** [fetchSelectedTools()], lines 108-122: status 404 gives the empty array,
    any other failure is logged. *)
Definition fetchSelectedTools (g : Graph) : handler unit :=
  if getClient g then
    match get g with
    | Found data => setSelectedTools data
    | NotFound => setSelectedTools []
    | Failed => mret ()
    end
  else mret ().

(** Mounting: the first render has [selectedTools = []], after it the save
    effect runs once, and the fetch later sets the state. *)
Definition mount (g : Graph) : Engine :=
  let st := commit (mkEngine [] []) [Save []] in
  let w := (fetchSelectedTools g).1 in
  commit st (w ++ saveEffect w).

End ToolsManagerEngine.

Module FileBackedEngine.

Definition handle (selectedTools : list slot) (o : op) : handler unit :=
  match o with
  | Add tool => FileBacked.addTool selectedTools tool
  | Remove toolId => FileBacked.removeTool selectedTools toolId
  | Move fromIndex toIndex => FileBacked.moveItem selectedTools fromIndex toIndex
  end.

Definition step (st : Engine) (o : op) : Engine :=
  commit st (handle (selectedTools st) o).1.

Definition run (st : Engine) (os : list op) : Engine := foldl step st os.

(** [useEffect(() => { handleToolsFile() }, [])]: the state starts empty. *)
Definition mount (absoluteUrl : string) (g : Graph) : Engine :=
  commit (mkEngine [] []) (FileBacked.handleToolsFile absoluteUrl g).1.

(** A drop on the selected list. *)
Definition drop_step (st : Engine) (itemId : string) (dropIndex : Z) : Engine :=
  commit st (FileBacked.onDrop (selectedTools st) itemId dropIndex).1.

End FileBackedEngine.

(** ** The filtered catalog *)

(** A string is modelled by the bytes of its UTF-8 form, one [ascii] each.
    For well-formed strings a string occurs in another, as [includes] tests
    it on UTF-16 code units, exactly when its bytes occur in the bytes of
    the other.

    [toLowerCase] is modelled on the strings made of ASCII characters and of
    the five Greek letters capital alpha, small alpha, capital sigma, small
    sigma and final sigma; strings with other characters are outside the
    model. On these strings [String.prototype.toLowerCase] lowers the
    letters [A]-[Z], capital alpha, and capital sigma, the last to the final
    sigma where the Unicode condition [Final_Sigma] holds: a cased letter
    comes before it, with nothing but case-ignorable characters in between,
    and no cased letter comes after it in the same way. *)
Module JsString.

(** The lower case of an ASCII character; other bytes are left. *)
Definition lower (c : ascii) : ascii :=
  let n := N_of_ascii c in
  if ((65 <=? n) && (n <=? 90))%N then ascii_of_N (n + 32) else c.

(** The ASCII letters, the cased characters of the ASCII range. *)
Definition cased (c : ascii) : bool :=
  let n := N_of_ascii c in
  (((65 <=? n) && (n <=? 90)) || ((97 <=? n) && (n <=? 122)))%N.

(** The case-ignorable characters of the ASCII range: apostrophe, full stop,
    colon, circumflex accent, grave accent. *)
Definition case_ignorable (c : ascii) : bool :=
  let n := N_of_ascii c in
  ((n =? 39) || (n =? 46) || (n =? 58) || (n =? 94) || (n =? 96))%N.

Inductive greek : Type :=
  | CapitalAlpha
  | SmallAlpha
  | CapitalSigma
  | SmallSigma
  | FinalSigma.

(** The Greek letter the two bytes [c], [d] are the UTF-8 form of: U+0391 is
    CE 91, U+03B1 is CE B1, U+03A3 is CE A3, U+03C3 is CF 83, U+03C2 is
    CF 82. *)
Definition greek_of (c d : ascii) : option greek :=
  let n := N_of_ascii c in
  let m := N_of_ascii d in
  if (n =? 206)%N then
    if (m =? 145)%N then Some CapitalAlpha
    else if (m =? 177)%N then Some SmallAlpha
    else if (m =? 163)%N then Some CapitalSigma
    else None
  else if (n =? 207)%N then
    if (m =? 131)%N then Some SmallSigma
    else if (m =? 130)%N then Some FinalSigma
    else None
  else None.

(** Whether a cased letter comes first in [s], case-ignorable characters
    before it left aside. All five Greek letters are cased. *)
Fixpoint cased_follows (s : string) : bool :=
  match s with
  | EmptyString => false
  | String c s' =>
      if case_ignorable c then cased_follows s'
      else
        cased c ||
        match s' with
        | String d _ => bool_decide (is_Some (greek_of c d))
        | EmptyString => false
        end
  end.

(** Whether a cased letter came last, case-ignorable characters after it
    left aside, once the ASCII character [c] has been read. *)
Definition after_char (after_cased : bool) (c : ascii) : bool :=
  if cased c then true else if case_ignorable c then after_cased else false.

(** [toLowerCase] of the rest [s] of a string; [after_cased] tells whether,
    in what was read before, a cased letter came last. *)
Fixpoint toLowerCase_from (after_cased : bool) (s : string) : string :=
  match s with
  | EmptyString => EmptyString
  | String c s' =>
      match s' with
      | EmptyString => String (lower c) EmptyString
      | String d s'' =>
          match greek_of c d with
          | Some CapitalSigma =>
              (if after_cased && negb (cased_follows s'') then "ς" else "σ")
              ++ toLowerCase_from true s''
          | Some CapitalAlpha => "α" ++ toLowerCase_from true s''
          | Some _ => String c (String d (toLowerCase_from true s''))
          | None => String (lower c) (toLowerCase_from (after_char after_cased c) s')
          end
      end
  end.

(** [String.prototype.toLowerCase]. *)
Definition toLowerCase (s : string) : string := toLowerCase_from false s.

(** [s.startsWith(sub)]. *)
Fixpoint startsWith (s sub : string) : bool :=
  match sub, s with
  | EmptyString, _ => true
  | String _ _, EmptyString => false
  | String d sub', String c s' => Ascii.eqb c d && startsWith s' sub'
  end.

(** [String.prototype.includes]: [sub] occurs somewhere in [s]. *)
Fixpoint includes (s sub : string) : bool :=
  startsWith s sub ||
  match s with
  | EmptyString => false
  | String _ s' => includes s' sub
  end.

End JsString.

(** The strings of ASCII characters. *)
Fixpoint ascii_only (s : string) : bool :=
  match s with
  | EmptyString => true
  | String c s' => (N_of_ascii c <? 128)%N && ascii_only s'
  end.

(** The lower case of each character of a string, one by one. *)
Fixpoint lower_each (s : string) : string :=
  match s with
  | EmptyString => EmptyString
  | String c s' => String (JsString.lower c) (lower_each s')
  end.

(** [filteredAvailableTools], lines 235-237 of [ToolsManager.tsx], the same
    in every variant: a function of the catalog and the search term alone. *)
Definition filteredAvailableTools (availableTools : list ITool) (searchTerm : string)
  : list ITool :=
  List.filter
    (λ tool, JsString.includes (JsString.toLowerCase (title tool))
                               (JsString.toLowerCase searchTerm))
    availableTools.

(** *** What a match ignoring case is, said without [toLowerCase] *)

(** [u] is a capital letter [A]-[Z] and [l] the small letter for it. *)
Definition capital_of (u l : ascii) : Prop :=
  ∃ n : N, (65 ≤ n ≤ 90)%N ∧ u = ascii_of_N n ∧ l = ascii_of_N (n + 32).

(** The same character, or the same letter in the two cases. *)
Definition same_letter (c d : ascii) : Prop :=
  c = d ∨ capital_of c d ∨ capital_of d c.

(** Two strings of the same length, with the same letter at each place. *)
Fixpoint same_text (s t : string) : Prop :=
  match s, t with
  | EmptyString, EmptyString => True
  | String c s', String d t' => same_letter c d ∧ same_text s' t'
  | _, _ => False
  end.

(** [q] occurs in [t] when the case of letters is ignored. *)
Definition ci_substring (q t : string) : Prop :=
  ∃ pre mid post : string, t = (pre ++ mid ++ post)%string ∧ same_text mid q.

(** ** The splice move of the specification *)

(** Take the element at index [i] out of the list and put it back so that it
    is the element at index [j] of the result: the elements between the two
    places move by one, nothing is exchanged. *)
Definition splice_move {A} (l : list A) (i j : nat) : list A :=
  match l !! i with
  | Some x => take j (delete i l) ++ x :: drop j (delete i l)
  | None => l
  end.

(** The position of the first entry with this id. *)
Fixpoint indexOf (a : list ITool) (x : string) : option nat :=
  match a with
  | [] => None
  | t :: a' => if String.eqb (id t) x then Some 0 else S <$> indexOf a' x
  end.

(** [r] is [l] filtered by [P]: the elements of [l] that have the property,
    all of them, in the order of [l]. *)
Inductive selects {A} (P : A → Prop) : list A → list A → Prop :=
  | selects_nil : selects P [] []
  | selects_keep x l r : P x → selects P l r → selects P (x :: l) (x :: r)
  | selects_skip x l r : ¬ P x → selects P l r → selects P (x :: l) r.

(** The index [findIndex] gives for an id in an array of tools: the place
    of the first entry with it, [-1] when there is none. *)
Definition findIndexOf (l : list ITool) (x : string) : Z :=
  match indexOf l x with
  | Some n => Z.of_nat n
  | None => (-1)%Z
  end.

(** Where the element at index [k] of the result of a splice move from [i]
    to [j] comes from, for [k] other than [j]: the elements between the two
    places have moved by one towards [i], the others have stayed. *)
Definition source_index (i j k : nat) : nat :=
  if decide (i ≤ k < j) then S k
  else if decide (j < k ≤ i) then pred k
  else k.

(** The operation is a mutation: its handler sets the state. *)
Definition mutates (a : list slot) (o : op) : Prop := is_Some (last_set (ToolsManagerEngine.handle a o).1).

(** ** The buttons of the rows *)

(** [Array.prototype.some]: whether the callback accepts an element. *)
Fixpoint some (cb : slot → completion bool) (a : list slot) : completion bool :=
  match a with
  | [] => Normal false
  | s :: a' =>
      b ← cb s;
      if b : bool then Normal true else some cb a'
  end.

(** The [onRender] of the two action columns of [ToolsManager.tsx], lines
    162-182 and 206-213 (the same in every variant, with the handlers of the
    variant): for the row [index] of the selected list the buttons Move Up,
    Move Down and Remove, for an [item] of the available list the button
    Add. Each button has its [disabled] flag and what its [onClick] runs. *)
Module Buttons.

Definition moveUp_disabled (index : Z) : bool := (index =? 0)%Z.

Definition moveUp_onClick (selectedTools : list slot) (index : Z) : handler unit :=
  ToolsManager.moveItem selectedTools index (index - 1).

Definition moveDown_disabled (selectedTools : list slot) (index : Z) : bool :=
  (index =? Z.of_nat (length selectedTools) - 1)%Z.

Definition moveDown_onClick (selectedTools : list slot) (index : Z) : handler unit :=
  ToolsManager.moveItem selectedTools index (index + 1).

Definition remove_onClick (selectedTools : list slot) (item : ITool) : handler unit :=
  ToolsManager.removeTool selectedTools (id item).

Definition add_disabled (selectedTools : list slot) (item : ITool) : completion bool :=
  some (λ t, i ← JsArray.get_id t; mret (String.eqb i (id item))) selectedTools.

Definition add_onClick (selectedTools : list slot) (item : ITool) : handler unit :=
  ToolsManager.addTool selectedTools item.

End Buttons.

(** ** The catalog reader *)

(** A row of the SharePoint list [ToolsList], as selected with [Id],
    [Title], [IconUrl], [ToolUrl]. [Id] is the text [item.Id.toString()]
    gives; a column without a value is [None]. *)
Record IToolListItem := mkItem {
  Id : string;
  Title : string;
  IconUrl : option string;
  ToolUrl : option string
}.

(** [x || d] for a string or missing [x]: the empty string and the missing
    value are falsy. *)
Definition or_else (x : option string) (d : string) : string :=
  match x with
  | Some EmptyString | None => d
  | Some v => v
  end.

(** The callback of [items.map] in [fetchAvailableTools], lines 92-97 of
    [ToolsManager.tsx]. *)
Definition toTool (absoluteUrl : string) (item : IToolListItem) : ITool :=
  {| id := Id item;
     title := Title item;
     icon := or_else (IconUrl item) (absoluteUrl ++ "/_layouts/15/images/placeholder.png");
     url := or_else (ToolUrl item) "#" |}.

(** [fetchAvailableTools()], lines 86-102: the new value of [availableTools]
    from the old one, for the answer of the list ([None] when the request
    fails: the error is logged and the state is not set). *)
Definition fetchAvailableTools (absoluteUrl : string) (items : option (list IToolListItem))
    (availableTools : list ITool) : list ITool :=
  match items with
  | Some items => toTool absoluteUrl <$> items
  | None => availableTools
  end.

(** * Properties *)

Local Close Scope string_scope.

(** ** Arrays *)

Section ArrayFacts.

Implicit Types (a b : list slot) (l : list ITool) (x : string).

Lemma ids_app a b : ids (a ++ b) = ids a ++ ids b.
Proof. unfold ids. by rewrite omap_app, fmap_app. Qed.

Lemma ids_tools l : ids (tools l) = id <$> l.
Proof.
  unfold ids, tools. induction l as [|t l IH]; [done|].
  simpl. by f_equal.
Qed.

Lemma ids_Permutation a b : a ≡ₚ b → ids a ≡ₚ ids b.
Proof. intros H. unfold ids. by rewrite H. Qed.

Lemma length_tools l : length (tools l) = length l.
Proof. unfold tools. by rewrite length_fmap. Qed.

(** What [splice] removes and what it leaves are, together with the inserted
    items, the array it was given. *)
Lemma splice_Permutation a (start deleteCount : Z) items :
  (JsArray.splice a start deleteCount items).1
    ++ (JsArray.splice a start deleteCount items).2 ≡ₚ items ++ a.
Proof.
  unfold JsArray.splice. cbn [fst snd].
  set (k := Z.to_nat _). set (d := Z.to_nat _).
  rewrite <- (take_drop k a) at 4.
  rewrite <- (take_drop d (drop k a)) at 2.
  rewrite drop_drop.
  generalize (take k a) (take d (drop k a)) (drop (k + d) a).
  intros p q r. rewrite <- (assoc (++)). rewrite (Permutation_app_comm p).
  rewrite <- !(assoc (++)). apply Permutation_app_head.
  rewrite (Permutation_app_comm r), (assoc (++)), (Permutation_app_comm q p).
  by rewrite <- (assoc (++)).
Qed.

Lemma splice_removed_length a (start deleteCount : Z) items :
  (Z.of_nat (length (JsArray.splice a start deleteCount items).2) ≤ Z.max deleteCount 0)%Z.
Proof.
  unfold JsArray.splice. cbn [snd]. rewrite length_take. lia.
Qed.

Lemma ids_first a : (length a ≤ 1)%nat → ids [JsArray.first a] = ids a.
Proof.
  destruct a as [|s [|s' a]]; simpl; [done|done|lia].
Qed.

(** Taking one element out and putting what came out back in, wherever,
    keeps the ids up to their order. *)
Lemma splice_twice_ids a (i j : Z) :
  ids (JsArray.splice
         (JsArray.splice a i 1 []).1 j 0
         [JsArray.first (JsArray.splice a i 1 []).2]).1
  ≡ₚ ids a.
Proof.
  pose proof (splice_Permutation a i 1 []) as H1.
  pose proof (splice_removed_length a i 1 []) as Hlen.
  set (a1 := (JsArray.splice a i 1 []).1) in *.
  set (removed := (JsArray.splice a i 1 []).2) in *.
  pose proof (splice_Permutation a1 j 0 [JsArray.first removed]) as H2.
  pose proof (splice_removed_length a1 j 0 [JsArray.first removed]) as Hlen2.
  set (a2 := (JsArray.splice a1 j 0 _).1) in *.
  destruct ((JsArray.splice a1 j 0 [JsArray.first removed]).2) as [|? ?];
    [|simpl in Hlen2; lia].
  rewrite app_nil_r in H2. simpl in H1.
  rewrite (ids_Permutation _ _ H2), <- (ids_Permutation _ _ H1).
  rewrite !ids_app, ids_first by lia.
  apply Permutation_app_comm.
Qed.

End ArrayFacts.

(** ** The callbacks on arrays of tools *)

Section CallbackFacts.

Implicit Types (a : list slot) (l : list ITool) (x : string).

Lemma find_None a x :
  JsArray.find (λ t, i ← JsArray.get_id t; mret (String.eqb i x)) a = Normal None →
  x ∉ ids a.
Proof.
  induction a as [|[t|] a IH]; simpl; intros H.
  - unfold ids. simpl. apply not_elem_of_nil.
  - unfold mret, completion_ret in H. simpl in H.
    destruct (String.eqb (id t) x) eqn:E; [done|].
    apply String.eqb_neq in E.
    unfold ids in *. simpl. rewrite elem_of_cons. intros [->|Hin]; [done|].
    by apply IH.
  - done.
Qed.

Lemma find_append a tool :
  JsArray.find (λ t, i ← JsArray.get_id t; mret (String.eqb i (id tool))) a = Normal None →
  JsArray.find (λ t, i ← JsArray.get_id t; mret (String.eqb i (id tool)))
    (a ++ [Some tool]) = Normal (Some tool).
Proof.
  induction a as [|[t|] a IH]; simpl; intros H.
  - unfold mret, completion_ret. simpl. by rewrite String.eqb_refl.
  - unfold mret, completion_ret in *. simpl in *.
    destruct (String.eqb (id t) (id tool)); [done|]. by apply IH.
  - done.
Qed.

Lemma filter_ids a x r :
  JsArray.filter (λ t, i ← JsArray.get_id t; mret (negb (String.eqb i x))) a = Normal r →
  ids r `sublist_of` ids a.
Proof.
  revert r. induction a as [|[t|] a IH]; simpl; intros r H.
  - by inversion H.
  - unfold mret, completion_ret in H. simpl in H.
    destruct (JsArray.filter _ a) as [r'|] eqn:E; [|done]. simpl in H.
    specialize (IH r' eq_refl). inversion H; subst.
    destruct (String.eqb (id t) x); simpl.
    + unfold ids in *. simpl. by apply sublist_cons.
    + unfold ids in *. simpl. by apply sublist_skip.
  - done.
Qed.

(** On an array of tools the filter of [removeTool] is the filter of lists. *)
Lemma filter_tools l x :
  JsArray.filter (λ t, i ← JsArray.get_id t; mret (negb (String.eqb i x))) (tools l)
  = Normal (tools (filter (λ t, id t ≠ x) l)).
Proof.
  induction l as [|t l IH]; [done|].
  simpl. unfold mret, completion_ret in *. simpl.
  rewrite IH. simpl.
  destruct (String.eqb (id t) x) eqn:E; simpl.
  - apply String.eqb_eq in E. by rewrite filter_cons_False by (intros ?; done).
  - apply String.eqb_neq in E. by rewrite filter_cons_True.
Qed.

Lemma filter_absent l x : x ∉ id <$> l → filter (λ t, id t ≠ x) l = l.
Proof.
  induction l as [|t l IH]; [done|].
  rewrite fmap_cons, not_elem_of_cons. intros [Hne Hin].
  rewrite filter_cons_True by done. f_equal. by apply IH.
Qed.

Lemma findIndex_from_tools l x (i : Z) :
  JsArray.findIndex_from i (λ t, j ← JsArray.get_id t; mret (String.eqb j x)) (tools l)
  = Normal (match indexOf l x with
            | Some n => (i + Z.of_nat n)%Z
            | None => (-1)%Z
            end).
Proof.
  revert i. induction l as [|t l IH]; intros i; [done|].
  simpl. unfold mret, completion_ret in *. simpl.
  destruct (String.eqb (id t) x).
  - by rewrite Z.add_0_r.
  - rewrite IH. destruct (indexOf l x); simpl; [|done].
    f_equal. lia.
Qed.

Lemma findIndex_tools l x :
  JsArray.findIndex (λ t, j ← JsArray.get_id t; mret (String.eqb j x)) (tools l)
  = Normal (findIndexOf l x).
Proof.
  unfold JsArray.findIndex, findIndexOf. rewrite findIndex_from_tools.
  by destruct (indexOf l x).
Qed.

Lemma indexOf_None l x : indexOf l x = None ↔ x ∉ id <$> l.
Proof.
  induction l as [|t l IH]; simpl.
  - split; [intros _; apply not_elem_of_nil|done].
  - rewrite not_elem_of_cons. destruct (String.eqb (id t) x) eqn:E.
    + apply String.eqb_eq in E. split; [done|]. intros [? _]. congruence.
    + apply String.eqb_neq in E. rewrite fmap_None, IH.
      split; [by intros ?; split|by intros [_ ?]].
Qed.

Lemma indexOf_lt l x n : indexOf l x = Some n → n < length l.
Proof.
  revert n. induction l as [|t l IH]; intros n; simpl; [done|].
  destruct (String.eqb (id t) x).
  - intros [= <-]. lia.
  - destruct (indexOf l x) as [m|]; simpl; [|done].
    intros [= <-]. specialize (IH m eq_refl). lia.
Qed.

End CallbackFacts.

(** ** What the handlers give to [setSelectedTools] *)

Section HandlerFacts.

Implicit Types (a v : list slot) (w : list effect) (o : op).

Lemma last_set_app w w' :
  last_set (w ++ w') = match last_set w' with
                       | Some v => Some v
                       | None => last_set w
                       end.
Proof.
  induction w as [|[v|p] w IH]; simpl.
  - by destruct (last_set w').
  - rewrite IH. by destruct (last_set w').
  - done.
Qed.

Lemma saved_app w w' : saved (w ++ w') = saved w ++ saved w'.
Proof.
  induction w as [|[v|p] w IH]; simpl; [done|done|by f_equal].
Qed.

Lemma last_set_saveEffect w : last_set (ToolsManagerEngine.saveEffect w) = None.
Proof. unfold ToolsManagerEngine.saveEffect. by destruct (last_set w). Qed.

(** The handlers of the two variants give the same arrays to
    [setSelectedTools]; they differ in their writes alone. *)
Lemma handle_last_set a o :
  last_set (FileBackedEngine.handle a o).1 = last_set (ToolsManagerEngine.handle a o).1.
Proof.
  destruct o as [tool|toolId|i j]; simpl.
  - unfold FileBacked.addTool, ToolsManager.addTool, lift.
    destruct (JsArray.find _ a) as [[t|]|]; done.
  - unfold FileBacked.removeTool, ToolsManager.removeTool, lift.
    destruct (JsArray.filter _ a) as [r|]; done.
  - unfold FileBacked.moveItem, ToolsManager.moveItem.
    destruct (_ || _)%bool; done.
Qed.

(** No handler brings a second entry with an id that is there already. *)
Lemma handle_NoDup a o v :
  last_set (ToolsManagerEngine.handle a o).1 = Some v →
  NoDup (ids a) → NoDup (ids v).
Proof.
  destruct o as [tool|toolId|i j]; simpl.
  - unfold ToolsManager.addTool, lift.
    destruct (JsArray.find _ a) as [[t|]|] eqn:E; simpl; [done| |done].
    intros [= <-] Hnd. rewrite ids_app. apply NoDup_app.
    split; [done|]. split; [|apply NoDup_singleton].
    intros y Hy. unfold ids. simpl. rewrite list_elem_of_singleton.
    intros ->. by apply find_None in E.
  - unfold ToolsManager.removeTool, lift.
    destruct (JsArray.filter _ a) as [r|] eqn:E; simpl; [|done].
    intros [= <-] Hnd. eapply sublist_NoDup; [done|]. by eapply filter_ids.
  - unfold ToolsManager.moveItem.
    destruct (_ || _)%bool; [done|].
    pose proof (splice_twice_ids a i j) as Hp.
    destruct (JsArray.splice a i 1 []) as [a1 removed]. cbn [fst snd] in Hp.
    destruct (JsArray.splice a1 j 0 _) as [a2 r2]. cbn [fst snd] in Hp.
    simpl. intros [= <-] Hnd. by rewrite Hp.
Qed.

Lemma selection_step_ToolsManager st o :
  selectedTools (ToolsManagerEngine.step st o)
  = default (selectedTools st) (last_set (ToolsManagerEngine.handle (selectedTools st) o).1).
Proof.
  unfold ToolsManagerEngine.step, commit. simpl.
  by rewrite last_set_app, last_set_saveEffect.
Qed.

Lemma selection_step_FileBacked st o :
  selectedTools (FileBackedEngine.step st o)
  = default (selectedTools st) (last_set (ToolsManagerEngine.handle (selectedTools st) o).1).
Proof.
  unfold FileBackedEngine.step, commit. simpl. by rewrite handle_last_set.
Qed.

(** The two variants go through the same selections. *)
Lemma selection_run_FileBacked st st' os :
  selectedTools st = selectedTools st' →
  selectedTools (FileBackedEngine.run st os) = selectedTools (ToolsManagerEngine.run st' os).
Proof.
  revert st st'. induction os as [|o os IH]; intros st st' H; [done|].
  simpl. apply IH.
  by rewrite selection_step_FileBacked, selection_step_ToolsManager, H.
Qed.

Lemma run_NoDup st os :
  NoDup (ids (selectedTools st)) → NoDup (ids (selectedTools (ToolsManagerEngine.run st os))).
Proof.
  revert st. induction os as [|o os IH]; intros st H; [done|].
  simpl. apply IH. rewrite selection_step_ToolsManager.
  destruct (last_set _) as [v|] eqn:E; simpl; [|done].
  by eapply handle_NoDup.
Qed.

End HandlerFacts.

(** ** Uniqueness *)

(** C1. From a selection in which no id occurs twice, every sequence of
    [addTool], [removeTool] and [moveItem] calls, with any arguments, leads
    to a selection in which no id occurs twice; in the variant of
    [ToolsManager.tsx] and in the file-backed one. *)
Theorem uniqueness_preserved (a : list slot) (ws : list (list slot)) (os : list op) :
  NoDup (ids a) →
  NoDup (ids (selectedTools (ToolsManagerEngine.run (mkEngine a ws) os)))
  ∧ NoDup (ids (selectedTools (FileBackedEngine.run (mkEngine a ws) os))).
Proof.
  intros H.
  rewrite (selection_run_FileBacked (mkEngine a ws) (mkEngine a ws) os eq_refl).
  split; by apply run_NoDup.
Qed.

Lemma uniqueness_preserved_witness :
  let A := mkTool "1" "Workday" "" "#" in
  let B := mkTool "2" "Time Mgr" "" "#" in
  let C := mkTool "4" "ATLAS Effects" "" "#" in
  let os := [Add C; Add A; Move 0 2; Move (-1) 0; Move 7 1; Remove "2"; Add B] in
  NoDup (ids (tools [A; B]))
  ∧ NoDup (ids (selectedTools (ToolsManagerEngine.run (mkEngine (tools [A; B]) []) os)))
  ∧ NoDup (ids (selectedTools (FileBackedEngine.run (mkEngine (tools [A; B]) []) os))).
Proof.
  intros A B C os.
  assert (NoDup (ids (tools [A; B]))) as H
    by (apply (bool_decide_unpack _); vm_compute; exact I).
  split; [exact H|].
  exact (uniqueness_preserved (tools [A; B]) [] os H).
Defined.

(** ** Moving *)

Section MoveFacts.

Implicit Types (a : list slot) (s : slot) (i j k : nat).

(** [splice(i, 1)] at a place of the array takes that element out. *)
Lemma splice_remove_in_range a i s :
  a !! i = Some s → JsArray.splice a (Z.of_nat i) 1 [] = (delete i a, [s]).
Proof.
  intros H. pose proof (lookup_lt_Some _ _ _ H) as Hlt.
  unfold JsArray.splice.
  replace (Z.of_nat i <? 0)%Z with false by lia.
  replace (Z.to_nat (Z.min (Z.of_nat i) (Z.of_nat (length a)))) with i by lia.
  replace (Z.to_nat (Z.min (Z.max 1 0) (Z.of_nat (length a) - Z.min (Z.of_nat i) (Z.of_nat (length a)))))
    with 1 by lia.
  rewrite (drop_S _ _ _ H). simpl. rewrite take_0.
  f_equal. rewrite delete_take_drop. f_equal. f_equal. lia.
Qed.

(** [splice(j, 0, s)] at a place of the array, or right after its end, puts
    [s] there. *)
Lemma splice_insert_in_range a j s :
  j ≤ length a →
  JsArray.splice a (Z.of_nat j) 0 [s] = (take j a ++ s :: drop j a, []).
Proof.
  intros H. unfold JsArray.splice.
  replace (Z.of_nat j <? 0)%Z with false by lia.
  replace (Z.to_nat (Z.min (Z.of_nat j) (Z.of_nat (length a)))) with j by lia.
  replace (Z.to_nat (Z.min (Z.max 0 0) (Z.of_nat (length a) - Z.min (Z.of_nat j) (Z.of_nat (length a)))))
    with 0 by lia.
  rewrite take_0. simpl. by rewrite Nat.add_0_r.
Qed.

Lemma splice_move_length {A} (l : list A) i j :
  i < length l → j < length l → length (splice_move l i j) = length l.
Proof.
  intros Hi Hj. unfold splice_move.
  destruct (l !! i) as [x|] eqn:E; [|done].
  rewrite length_app. simpl. rewrite length_take, length_drop, length_delete by eauto.
  lia.
Qed.

Lemma splice_move_lookup_target {A} (l : list A) i j :
  i < length l → j < length l → splice_move l i j !! j = l !! i.
Proof.
  intros Hi Hj. unfold splice_move.
  destruct (l !! i) as [x|] eqn:E; [|by apply lookup_ge_None_1 in E; lia].
  rewrite lookup_app_r; rewrite length_take, length_delete by eauto; [|lia].
  replace (j - j `min` (length l - 1)) with 0 by lia. done.
Qed.

Lemma splice_move_lookup_other {A} (l : list A) i j k :
  i < length l → j < length l → k ≠ j →
  splice_move l i j !! k = l !! source_index i j k.
Proof.
  intros Hi Hj Hk. unfold splice_move, source_index.
  destruct (l !! i) as [x|] eqn:E; [|by apply lookup_ge_None_1 in E; lia].
  assert (length (take j (delete i l)) = j) as Hlen
    by (rewrite length_take, length_delete by eauto; lia).
  destruct (decide (k < j)) as [Hlt|Hge].
  - rewrite lookup_app_l by lia. rewrite lookup_take_lt by done.
    destruct (decide (k < i)).
    + rewrite list_lookup_delete_lt by done. by repeat case_decide; try lia.
    + rewrite list_lookup_delete_ge by lia. by repeat case_decide; try lia.
  - rewrite lookup_app_r by lia. rewrite Hlen.
    rewrite lookup_cons_ne_0 by lia. rewrite lookup_drop.
    replace (j + pred (k - j)) with (pred k) by lia.
    destruct (decide (k ≤ i)).
    + rewrite list_lookup_delete_lt by lia. by repeat case_decide; try lia.
    + rewrite list_lookup_delete_ge by lia.
      repeat case_decide; try lia. f_equal. lia.
Qed.

(** In range, the two splices of [moveItem] are the splice move. *)
Lemma splice_twice_in_range a i j :
  i < length a → j < length a →
  (JsArray.splice
     (JsArray.splice a (Z.of_nat i) 1 []).1 (Z.of_nat j) 0
     [JsArray.first (JsArray.splice a (Z.of_nat i) 1 []).2]).1
  = splice_move a i j.
Proof.
  intros Hi Hj. unfold splice_move.
  destruct (lookup_lt_is_Some_2 a i Hi) as [s Hs]. rewrite Hs.
  rewrite (splice_remove_in_range a i s Hs). cbn [fst snd JsArray.first].
  rewrite splice_insert_in_range by (rewrite length_delete by eauto; lia).
  done.
Qed.

End MoveFacts.

Lemma moveItem_guard_false (a : list slot) (toIndex : Z) :
  (0 ≤ toIndex < Z.of_nat (length a))%Z →
  ((toIndex <? 0) || (toIndex >=? Z.of_nat (length a)))%Z = false.
Proof. intros H. apply orb_false_iff. lia. Qed.

Lemma moveItem_guard_true (a : list slot) (toIndex : Z) :
  (toIndex < 0)%Z ∨ (Z.of_nat (length a) ≤ toIndex)%Z →
  ((toIndex <? 0) || (toIndex >=? Z.of_nat (length a)))%Z = true.
Proof. intros H. apply orb_true_iff. lia. Qed.

(** In range, both variants of [moveItem] set the splice move, and the
    file-backed one writes it. *)
Lemma moveItem_in_range (a : list slot) (fromIndex toIndex : Z) :
  (0 ≤ fromIndex < Z.of_nat (length a))%Z →
  (0 ≤ toIndex < Z.of_nat (length a))%Z →
  let r := splice_move a (Z.to_nat fromIndex) (Z.to_nat toIndex) in
  ToolsManager.moveItem a fromIndex toIndex = ([SetSelectedTools r], Normal ())
  ∧ FileBacked.moveItem a fromIndex toIndex = ([SetSelectedTools r; Save r], Normal ()).
Proof.
  intros Hi Hj r.
  assert (Z.to_nat fromIndex < length a) as Hi' by lia.
  assert (Z.to_nat toIndex < length a) as Hj' by lia.
  pose proof (splice_twice_in_range a _ _ Hi' Hj') as Hs.
  rewrite !Z2Nat.id in Hs by lia. fold r in Hs.
  unfold ToolsManager.moveItem, FileBacked.moveItem.
  rewrite moveItem_guard_false by done.
  destruct (JsArray.splice a fromIndex 1 []) as [a1 removed]. cbn [fst snd] in Hs.
  destruct (JsArray.splice a1 toIndex 0 _) as [a2 r2]. cbn [fst snd] in Hs.
  by rewrite Hs.
Qed.

(** C2. With both indices in range, [moveItem(fromIndex, toIndex)] sets the
    selection to the splice move of it: the element that was at [fromIndex]
    is at [toIndex], the length is kept, and every other place holds the
    element that was there, or the neighbour of it for the places between the
    two indices, so that nothing is exchanged. The file-backed variant writes
    that same array. On [[A, B, C, D]], [moveItem(0, 2)] gives
    [[B, C, A, D]]. *)
Theorem moveItem_splice_move (a : list slot) (fromIndex toIndex : Z) :
  (0 ≤ fromIndex < Z.of_nat (length a))%Z →
  (0 ≤ toIndex < Z.of_nat (length a))%Z →
  let i := Z.to_nat fromIndex in
  let j := Z.to_nat toIndex in
  let r := splice_move a i j in
  ToolsManager.moveItem a fromIndex toIndex = ([SetSelectedTools r], Normal ())
  ∧ FileBacked.moveItem a fromIndex toIndex = ([SetSelectedTools r; Save r], Normal ())
  ∧ length r = length a
  ∧ r !! j = a !! i
  ∧ (∀ k : nat, k ≠ j → r !! k = a !! source_index i j k)
  ∧ (∀ A B C D : ITool,
       ToolsManager.moveItem (tools [A; B; C; D]) 0 2
       = ([SetSelectedTools (tools [B; C; A; D])], Normal ())).
Proof.
  intros Hi Hj i j r.
  assert (i < length a) as Hi' by lia.
  assert (j < length a) as Hj' by lia.
  destruct (moveItem_in_range a fromIndex toIndex Hi Hj) as [HT HF].
  split; [exact HT|]. split; [exact HF|].
  split; [by apply splice_move_length|].
  split; [by apply splice_move_lookup_target|].
  split; [|done].
  intros k Hk. by apply splice_move_lookup_other.
Qed.

Lemma moveItem_splice_move_witness :
  let A := mkTool "1" "Workday" "" "#" in
  let B := mkTool "2" "Time Mgr" "" "#" in
  let C := mkTool "3" "Fidelity" "" "#" in
  let D := mkTool "4" "ATLAS Effects" "" "#" in
  (0 ≤ 0 < Z.of_nat (length (tools [A; B; C; D])))%Z
  ∧ (0 ≤ 2 < Z.of_nat (length (tools [A; B; C; D])))%Z
  ∧ FileBacked.moveItem (tools [A; B; C; D]) 0 2
    = ([SetSelectedTools (tools [B; C; A; D]); Save (tools [B; C; A; D])], Normal ()).
Proof.
  intros A B C D.
  assert (0 ≤ 0 < Z.of_nat (length (tools [A; B; C; D])))%Z as H0 by (simpl; lia).
  assert (0 ≤ 2 < Z.of_nat (length (tools [A; B; C; D])))%Z as H2 by (simpl; lia).
  split; [exact H0|]. split; [exact H2|].
  exact (proj1 (proj2 (moveItem_splice_move (tools [A; B; C; D]) 0 2 H0 H2))).
Defined.

(** [moveItem] never throws, whatever the indices. *)
Lemma moveItem_returns (a : list slot) (fromIndex toIndex : Z) :
  (ToolsManager.moveItem a fromIndex toIndex).2 = Normal ()
  ∧ (FileBacked.moveItem a fromIndex toIndex).2 = Normal ().
Proof.
  unfold ToolsManager.moveItem, FileBacked.moveItem.
  destruct (_ || _)%bool; [done|].
  destruct (JsArray.splice a fromIndex 1 []) as [a1 removed].
  by destruct (JsArray.splice a1 toIndex 0 _) as [a2 r2].
Qed.

(** C3, as stated, fails: the guard of [moveItem] looks at [toIndex] alone.
    With [fromIndex = -1] and [toIndex] in range the last entry moves; with
    [fromIndex] past the end an [undefined] entry comes in. *)
Lemma moveItem_from_out_of_range_changes :
  let A := mkTool "1" "Workday" "" "#" in
  let B := mkTool "2" "Time Mgr" "" "#" in
  let st := mkEngine (tools [A; B]) [] in
  ((-1) < 0)%Z
  ∧ selectedTools (ToolsManagerEngine.step st (Move (-1) 0)) = tools [B; A]
  ∧ selectedTools (FileBackedEngine.step st (Move (-1) 0)) = tools [B; A]
  ∧ tools [B; A] ≠ selectedTools st
  ∧ (Z.of_nat (length (selectedTools st)) ≤ 5)%Z
  ∧ selectedTools (ToolsManagerEngine.step st (Move 5 0)) = [None; Some A; Some B]
  ∧ [None; Some A; Some B] ≠ selectedTools st.
Proof.
  intros A B st. repeat split; try reflexivity; try (simpl; lia); discriminate.
Qed.

(** C3, amended. With [toIndex] out of range, [moveItem] returns before it
    does anything, whatever [fromIndex] is: no error, no new state, no
    write, and the engine is as it was. *)
Theorem moveItem_to_out_of_range (a : list slot) (ws : list (list slot))
    (fromIndex toIndex : Z) :
  (toIndex < 0)%Z ∨ (Z.of_nat (length a) ≤ toIndex)%Z →
  ToolsManager.moveItem a fromIndex toIndex = ([], Normal ())
  ∧ FileBacked.moveItem a fromIndex toIndex = ([], Normal ())
  ∧ ToolsManagerEngine.step (mkEngine a ws) (Move fromIndex toIndex) = mkEngine a ws
  ∧ FileBackedEngine.step (mkEngine a ws) (Move fromIndex toIndex) = mkEngine a ws.
Proof.
  intros H.
  assert (ToolsManager.moveItem a fromIndex toIndex = ([], Normal ())) as H1
    by (unfold ToolsManager.moveItem; by rewrite moveItem_guard_true).
  assert (FileBacked.moveItem a fromIndex toIndex = ([], Normal ())) as H2
    by (unfold FileBacked.moveItem; by rewrite moveItem_guard_true).
  repeat split; try done.
  - unfold ToolsManagerEngine.step, commit. simpl. rewrite H1. simpl.
    by rewrite app_nil_r.
  - unfold FileBackedEngine.step, commit. simpl. rewrite H2. simpl.
    by rewrite app_nil_r.
Qed.

Lemma moveItem_to_out_of_range_witness :
  let A := mkTool "1" "Workday" "" "#" in
  let B := mkTool "2" "Time Mgr" "" "#" in
  ((2 < 0)%Z ∨ (Z.of_nat (length (tools [A; B])) ≤ 2)%Z)
  ∧ FileBackedEngine.step (mkEngine (tools [A; B]) []) (Move 1 2)
    = mkEngine (tools [A; B]) [].
Proof.
  intros A B.
  assert ((2 < 0)%Z ∨ (Z.of_nat (length (tools [A; B])) ≤ 2)%Z) as H by (right; simpl; lia).
  split; [exact H|].
  exact (proj2 (proj2 (proj2 (moveItem_to_out_of_range (tools [A; B]) [] 1 2 H)))).
Defined.

(** ** Dropping *)

Lemma bind_lift_Normal {A B} (x : A) (f : A → handler B) :
  lift (Normal x) ≫= f = f x.
Proof. unfold lift, mbind, handler_bind. by destruct (f x). Qed.

Lemma splice_move_same {A} (l : list A) (i : nat) : splice_move l i i = l.
Proof.
  unfold splice_move. destruct (l !! i) as [x|] eqn:E; [|done].
  pose proof (lookup_lt_Some _ _ _ E) as Hlt.
  rewrite delete_take_drop.
  rewrite take_app_length' by (rewrite length_take; lia).
  rewrite drop_app_length' by (rewrite length_take; lia).
  by apply take_drop_middle.
Qed.

(** With the target in range, a drop and [moveItem] from the index that
    [findIndex] gives lead to the same selection; [moveItem] also writes the
    file, [onDrop] does not. *)
Lemma onDrop_in_range (l : list ITool) (ws : list (list slot)) (itemId : string)
    (dropIndex : Z) :
  (0 ≤ dropIndex < Z.of_nat (length l))%Z →
  selectedTools (FileBackedEngine.drop_step (mkEngine (tools l) ws) itemId dropIndex)
  = selectedTools (FileBackedEngine.step (mkEngine (tools l) ws)
                 (Move (findIndexOf l itemId) dropIndex)).
Proof.
  intros H. rewrite <- length_tools in H.
  unfold FileBackedEngine.drop_step, FileBackedEngine.step, commit. cbn [selectedTools].
  unfold FileBacked.onDrop. rewrite findIndex_tools, bind_lift_Normal.
  cbn [FileBackedEngine.handle].
  destruct (Z.eqb_spec (findIndexOf l itemId) dropIndex) as [->|Hne]; cbn [negb].
  - destruct (moveItem_in_range (tools l) dropIndex dropIndex H H)
      as [_ ->].
    simpl. by rewrite splice_move_same.
  - unfold FileBacked.moveItem. rewrite moveItem_guard_false by done.
    destruct (JsArray.splice (tools l) (findIndexOf l itemId) 1 []) as [a1 removed].
    by destruct (JsArray.splice a1 dropIndex 0 _) as [a2 r2].
Qed.

(** C4. The drop handler neither checks that the dragged id was found nor
    that the target is in range. For an id that is not in the selection
    [findIndex] gives [-1], and the drop moves the last entry to the
    target; for a target past the end the dragged entry goes to the end,
    where [moveItem] with the same indices does nothing. *)
Theorem onDrop_absent_or_far_target :
  let A := mkTool "1" "Workday" "" "#" in
  let B := mkTool "2" "Time Mgr" "" "#" in
  let C := mkTool "3" "Fidelity" "" "#" in
  indexOf [A; B] "9" = None
  ∧ selectedTools (FileBackedEngine.drop_step (mkEngine (tools [A; B]) []) "9" 0)
    = tools [B; A]
  ∧ tools [B; A] ≠ tools [A; B]
  ∧ indexOf [A; B; C] "1" = Some 0
  ∧ selectedTools (FileBackedEngine.drop_step (mkEngine (tools [A; B; C]) []) "1" 5)
    = tools [B; C; A]
  ∧ selectedTools (FileBackedEngine.step (mkEngine (tools [A; B; C]) []) (Move 0 5))
    = tools [A; B; C]
  ∧ tools [B; C; A] ≠ tools [A; B; C].
Proof.
  intros A B C. repeat split; try reflexivity; discriminate.
Qed.

(** ** Initialization *)

(** C5, as stated, fails in two ways. [handleToolsFile] sets the state
    after the [put] of the default tools, inside the same [try]: when that
    [put] fails the outer [catch] logs and the selection stays empty. And
    [ToolsManager.tsx] has no default tools: on status 404
    [fetchSelectedTools] sets the empty array, and the save effect has
    written the empty array twice by then. *)
Lemma not_found_selection_not_seeded :
  let defaultTools := tools (FileBacked.defaultTools "https://contoso.sharepoint.com") in
  let g := mkGraph true NotFound false in
  let st := FileBackedEngine.mount "https://contoso.sharepoint.com" g in
  let g' := mkGraph true NotFound true in
  let st' := ToolsManagerEngine.mount g' in
  get g = NotFound
  ∧ writes st = [defaultTools]
  ∧ selectedTools st = []
  ∧ selectedTools st ≠ defaultTools
  ∧ get g' = NotFound
  ∧ selectedTools st' = []
  ∧ selectedTools st' ≠ defaultTools
  ∧ writes st' = [[]; []]
  ∧ length (writes st') ≠ 1.
Proof.
  intros defaultTools g st g' st'.
  repeat split; try reflexivity; discriminate.
Qed.

(** A write of the default tools that fails leaves the selection empty,
    whatever made the read fail. *)
Lemma handleToolsFile_put_failed (absoluteUrl : string) (g : Graph) :
  getClient g = true → (∀ data, get g ≠ Found data) →
  put g = false →
  FileBackedEngine.mount absoluteUrl g
  = mkEngine [] [tools (FileBacked.defaultTools absoluteUrl)].
Proof.
  intros Hc Hg Hp. unfold FileBackedEngine.mount, FileBacked.handleToolsFile.
  rewrite Hc, Hp. destruct (get g) as [data| |]; [by destruct (Hg data)|done|done].
Qed.

(** In [ToolsManager.tsx] there are no default tools: status 404 gives the
    empty selection, and the save effect writes the empty array, once after
    the first render and once after the fetch. *)
Lemma fetchSelectedTools_not_found (g : Graph) :
  getClient g = true → get g = NotFound →
  ToolsManagerEngine.mount g = mkEngine [] [[]; []].
Proof.
  intros Hc Hg. unfold ToolsManagerEngine.mount, ToolsManagerEngine.fetchSelectedTools.
  by rewrite Hc, Hg.
Qed.

(** C5, amended. When the file is not found: [handleToolsFile] starts
    exactly one write, of its default tools Workday, Time Mgr, Fidelity, and,
    when that write is acknowledged, the selection is these default tools;
    [ToolsManager.tsx], which has no default tools, ends with the empty
    selection, the save effect having started two writes, both of the empty
    array. *)
Theorem not_found_initialization (absoluteUrl : string) (g : Graph) :
  getClient g = true →
  get g = NotFound →
  (let st := FileBackedEngine.mount absoluteUrl g in
   let defaultTools := FileBacked.defaultTools absoluteUrl in
   title <$> defaultTools = ["Workday"; "Time Mgr"; "Fidelity"]%string
   ∧ writes st = [tools defaultTools]
   ∧ (put g = true → selectedTools st = tools defaultTools))
  ∧ ToolsManagerEngine.mount g = mkEngine [] [[]; []].
Proof.
  intros Hc Hg. split; [|by apply fetchSelectedTools_not_found].
  intros st defaultTools.
  unfold st, FileBackedEngine.mount, FileBacked.handleToolsFile.
  rewrite Hc, Hg. destruct (put g); repeat split; try done.
Qed.

Lemma not_found_initialization_witness :
  let g := mkGraph true NotFound true in
  let st := FileBackedEngine.mount "https://contoso.sharepoint.com" g in
  let defaultTools := FileBacked.defaultTools "https://contoso.sharepoint.com" in
  getClient g = true
  ∧ get g = NotFound
  ∧ put g = true
  ∧ writes st = [tools defaultTools]
  ∧ selectedTools st = tools defaultTools
  ∧ ToolsManagerEngine.mount g = mkEngine [] [[]; []].
Proof.
  intros g st defaultTools.
  pose proof (not_found_initialization "https://contoso.sharepoint.com" g
                eq_refl eq_refl) as ((_ & Hw & Hs) & Hm).
  exact (conj eq_refl (conj eq_refl (conj eq_refl (conj Hw (conj (Hs eq_refl) Hm))))).
Defined.

(** ** Writes *)

Section WriteFacts.

Implicit Types (a v : list slot) (o : op) (st : Engine).

(** A handler of the file-backed variant writes what it gives to
    [setSelectedTools], and nothing when it does not set the state. *)
Lemma handle_saved_FileBacked a o :
  saved (FileBackedEngine.handle a o).1
  = match last_set (FileBackedEngine.handle a o).1 with
    | Some v => [v]
    | None => []
    end.
Proof.
  destruct o as [tool|toolId|i j]; simpl.
  - unfold FileBacked.addTool, lift.
    destruct (JsArray.find _ a) as [[t|]|]; done.
  - unfold FileBacked.removeTool, lift.
    destruct (JsArray.filter _ a) as [r|]; done.
  - unfold FileBacked.moveItem.
    destruct (_ || _)%bool; [done|].
    destruct (JsArray.splice a i 1 []) as [a1 removed].
    by destruct (JsArray.splice a1 j 0 _) as [a2 r2].
Qed.

(** A handler of [ToolsManager.tsx] sets the state at most once and writes
    nothing itself. *)
Lemma handle_saved_ToolsManager a o :
  saved (ToolsManagerEngine.handle a o).1 = [].
Proof.
  destruct o as [tool|toolId|i j]; simpl.
  - unfold ToolsManager.addTool, lift.
    destruct (JsArray.find _ a) as [[t|]|]; done.
  - unfold ToolsManager.removeTool, lift.
    destruct (JsArray.filter _ a) as [r|]; done.
  - unfold ToolsManager.moveItem.
    destruct (_ || _)%bool; [done|].
    destruct (JsArray.splice a i 1 []) as [a1 removed].
    by destruct (JsArray.splice a1 j 0 _) as [a2 r2].
Qed.

Lemma writes_step_FileBacked st o :
  mutates (selectedTools st) o →
  writes (FileBackedEngine.step st o)
  = writes st ++ [selectedTools (FileBackedEngine.step st o)].
Proof.
  intros [v Hv]. rewrite selection_step_FileBacked, Hv.
  unfold FileBackedEngine.step, commit. cbn [writes].
  by rewrite handle_saved_FileBacked, handle_last_set, Hv.
Qed.

Lemma writes_step_ToolsManager st o :
  mutates (selectedTools st) o →
  writes (ToolsManagerEngine.step st o)
  = writes st ++ [selectedTools (ToolsManagerEngine.step st o)].
Proof.
  intros [v Hv]. rewrite selection_step_ToolsManager, Hv.
  unfold ToolsManagerEngine.step, commit. cbn [writes].
  rewrite saved_app, handle_saved_ToolsManager.
  unfold ToolsManagerEngine.saveEffect. by rewrite Hv.
Qed.

End WriteFacts.

(** C6, as stated, fails: nothing in the component records that a write is
    under way, and no write is held back or merged. With one write under way
    and three mutations after it there are four writes, in either variant.
    Three drops, for their part, start no write at all, and the one write
    there was is not of the final selection. *)
Lemma three_mutations_four_writes :
  let A := mkTool "1" "Workday" "" "#" in
  let B := mkTool "2" "Time Mgr" "" "#" in
  let C := mkTool "3" "Fidelity" "" "#" in
  let st := mkEngine (tools [A]) [tools [A]] in
  let os := [Add B; Add C; Remove "1"] in
  let st' := mkEngine (tools [A; B; C]) [tools [A; B; C]] in
  let dropped :=
    FileBackedEngine.drop_step
      (FileBackedEngine.drop_step (FileBackedEngine.drop_step st' "3" 0) "1" 0) "2" 0 in
  length (writes st) = 1
  ∧ length (writes (FileBackedEngine.run st os)) = 4
  ∧ length (writes (ToolsManagerEngine.run st os)) = 4
  ∧ 4 ≠ 2
  ∧ length (writes st') = 1
  ∧ selectedTools (FileBackedEngine.drop_step st' "3" 0) = tools [C; A; B]
  ∧ selectedTools (FileBackedEngine.drop_step (FileBackedEngine.drop_step st' "3" 0) "1" 0)
    = tools [A; C; B]
  ∧ selectedTools dropped = tools [B; A; C]
  ∧ length (writes dropped) = 1
  ∧ 1 ≠ 2
  ∧ last (writes dropped) ≠ Some (selectedTools dropped).
Proof.
  intros A B C st os st' dropped.
  repeat split; try reflexivity; try lia; discriminate.
Qed.

(** C6, amended. Every [addTool], [removeTool] or [moveItem] call that sets
    the state starts a write of its own, with the selection it has just set,
    whatever writes are under way: after one write and three such mutations
    there are four writes, the last three with the three selections one
    after the other, so that the payload of the last write is the final
    selection. In either variant. *)
Theorem every_mutation_writes (st : Engine) (p : list slot) (o1 o2 o3 : op) :
  writes st = [p] →
  (let st1 := FileBackedEngine.step st o1 in
   let st2 := FileBackedEngine.step st1 o2 in
   let st3 := FileBackedEngine.step st2 o3 in
   mutates (selectedTools st) o1 → mutates (selectedTools st1) o2 → mutates (selectedTools st2) o3 →
   FileBackedEngine.run st [o1; o2; o3] = st3
   ∧ writes st3 = [p; selectedTools st1; selectedTools st2; selectedTools st3]
   ∧ last (writes st3) = Some (selectedTools st3))
  ∧
  (let st1 := ToolsManagerEngine.step st o1 in
   let st2 := ToolsManagerEngine.step st1 o2 in
   let st3 := ToolsManagerEngine.step st2 o3 in
   mutates (selectedTools st) o1 → mutates (selectedTools st1) o2 → mutates (selectedTools st2) o3 →
   ToolsManagerEngine.run st [o1; o2; o3] = st3
   ∧ writes st3 = [p; selectedTools st1; selectedTools st2; selectedTools st3]
   ∧ last (writes st3) = Some (selectedTools st3)).
Proof.
  intros Hp. split; intros st1 st2 st3 H1 H2 H3.
  - assert (writes st3 = [p; selectedTools st1; selectedTools st2; selectedTools st3]) as Hw.
    { unfold st3. rewrite writes_step_FileBacked by done. fold st3.
      unfold st2. rewrite writes_step_FileBacked by done. fold st2.
      unfold st1. rewrite writes_step_FileBacked by done. fold st1.
      by rewrite Hp. }
    split; [done|]. split; [done|]. by rewrite Hw.
  - assert (writes st3 = [p; selectedTools st1; selectedTools st2; selectedTools st3]) as Hw.
    { unfold st3. rewrite writes_step_ToolsManager by done. fold st3.
      unfold st2. rewrite writes_step_ToolsManager by done. fold st2.
      unfold st1. rewrite writes_step_ToolsManager by done. fold st1.
      by rewrite Hp. }
    split; [done|]. split; [done|]. by rewrite Hw.
Qed.

Lemma every_mutation_writes_witness :
  let A := mkTool "1" "Workday" "" "#" in
  let B := mkTool "2" "Time Mgr" "" "#" in
  let st := mkEngine (tools [A; B]) [tools [A; B]] in
  writes st = [tools [A; B]]
  ∧ mutates (selectedTools st) (Move 0 1)
  ∧ mutates (selectedTools (FileBackedEngine.step st (Move 0 1))) (Remove "9")
  ∧ mutates (selectedTools (FileBackedEngine.step
                          (FileBackedEngine.step st (Move 0 1)) (Remove "9")))
            (Remove "1")
  ∧ writes (FileBackedEngine.run st [Move 0 1; Remove "9"; Remove "1"])
    = [tools [A; B]; tools [B; A]; tools [B; A]; tools [B]].
Proof.
  intros A B st.
  assert (mutates (selectedTools st) (Move 0 1)) as H1 by (eexists; reflexivity).
  assert (mutates (selectedTools (FileBackedEngine.step st (Move 0 1))) (Remove "9")) as H2
    by (eexists; reflexivity).
  assert (mutates (selectedTools (FileBackedEngine.step
                                (FileBackedEngine.step st (Move 0 1)) (Remove "9")))
                  (Remove "1")) as H3
    by (eexists; reflexivity).
  pose proof (proj1 (every_mutation_writes st (tools [A; B])
                       (Move 0 1) (Remove "9") (Remove "1") eq_refl) H1 H2 H3)
    as (_ & Hw & _).
  exact (conj eq_refl (conj H1 (conj H2 (conj H3 Hw)))).
Defined.

(** C7, as stated, fails: [removeTool] filters, sets the state and saves
    without looking whether anything was removed. *)
Lemma removeTool_absent_writes :
  let A := mkTool "1" "Workday" "" "#" in
  let st := mkEngine (tools [A]) [] in
  ("9" ∉ id <$> [A])
  ∧ FileBackedEngine.step st (Remove "9") = mkEngine (tools [A]) [tools [A]]
  ∧ ToolsManagerEngine.step st (Remove "9") = mkEngine (tools [A]) [tools [A]]
  ∧ writes (FileBackedEngine.step st (Remove "9")) ≠ writes st.
Proof.
  intros A st. repeat split; try reflexivity; try discriminate.
  apply (bool_decide_unpack _). vm_compute. exact I.
Qed.

(** C7, amended. For an id that no entry of the selection has, [removeTool]
    leaves the selection as it is, and one write of that unchanged selection
    is started. In either variant. *)
Theorem removeTool_absent (l : list ITool) (ws : list (list slot)) (toolId : string) :
  toolId ∉ id <$> l →
  FileBackedEngine.step (mkEngine (tools l) ws) (Remove toolId)
  = mkEngine (tools l) (ws ++ [tools l])
  ∧ ToolsManagerEngine.step (mkEngine (tools l) ws) (Remove toolId)
    = mkEngine (tools l) (ws ++ [tools l]).
Proof.
  intros H.
  unfold FileBackedEngine.step, ToolsManagerEngine.step, commit.
  cbn [selectedTools writes FileBackedEngine.handle ToolsManagerEngine.handle].
  unfold FileBacked.removeTool, ToolsManager.removeTool.
  rewrite filter_tools, !bind_lift_Normal, filter_absent by done.
  done.
Qed.

Lemma removeTool_absent_witness :
  let A := mkTool "1" "Workday" "" "#" in
  let B := mkTool "2" "Time Mgr" "" "#" in
  ("9" ∉ id <$> [A; B])
  ∧ FileBackedEngine.step (mkEngine (tools [A; B]) []) (Remove "9")
    = mkEngine (tools [A; B]) ([] ++ [tools [A; B]]).
Proof.
  intros A B.
  assert ("9" ∉ id <$> [A; B]) as H
    by (apply (bool_decide_unpack _); vm_compute; exact I).
  exact (conj H (proj1 (removeTool_absent [A; B] [] "9" H))).
Defined.

(** ** Adding and removing *)

Lemma commit_nil (st : Engine) : commit st [] = st.
Proof. destruct st as [a ws]. unfold commit. simpl. by rewrite app_nil_r. Qed.

(** [addTool] appends when [find] went through the whole array without a
    match, and does nothing otherwise. *)
Lemma step_Add_FileBacked (st : Engine) (tool : ITool) :
  FileBackedEngine.step st (Add tool)
  = match JsArray.find (λ t, i ← JsArray.get_id t; mret (String.eqb i (id tool)))
            (selectedTools st) with
    | Normal None =>
        mkEngine (selectedTools st ++ [Some tool])
                 (writes st ++ [selectedTools st ++ [Some tool]])
    | _ => st
    end.
Proof.
  unfold FileBackedEngine.step. cbn [FileBackedEngine.handle].
  unfold FileBacked.addTool, lift.
  destruct (JsArray.find _ (selectedTools st)) as [[t|]|]; simpl;
    [apply commit_nil|done|apply commit_nil].
Qed.

Lemma step_Add_ToolsManager (st : Engine) (tool : ITool) :
  ToolsManagerEngine.step st (Add tool)
  = match JsArray.find (λ t, i ← JsArray.get_id t; mret (String.eqb i (id tool)))
            (selectedTools st) with
    | Normal None =>
        mkEngine (selectedTools st ++ [Some tool])
                 (writes st ++ [selectedTools st ++ [Some tool]])
    | _ => st
    end.
Proof.
  unfold ToolsManagerEngine.step. cbn [ToolsManagerEngine.handle].
  unfold ToolsManager.addTool, lift.
  destruct (JsArray.find _ (selectedTools st)) as [[t|]|]; simpl;
    [apply commit_nil|done|apply commit_nil].
Qed.

(** C9. [addTool(x)] twice in a row leaves the engine, selection and writes,
    as [addTool(x)] once does. In either variant, from any state. *)
Theorem addTool_idempotent (st : Engine) (tool : ITool) :
  FileBackedEngine.step (FileBackedEngine.step st (Add tool)) (Add tool)
  = FileBackedEngine.step st (Add tool)
  ∧ ToolsManagerEngine.step (ToolsManagerEngine.step st (Add tool)) (Add tool)
    = ToolsManagerEngine.step st (Add tool)
  ∧ selectedTools (FileBackedEngine.run st [Add tool; Add tool])
    = selectedTools (FileBackedEngine.run st [Add tool]).
Proof.
  assert (FileBackedEngine.step (FileBackedEngine.step st (Add tool)) (Add tool)
          = FileBackedEngine.step st (Add tool)) as HF.
  { rewrite (step_Add_FileBacked st).
    destruct (JsArray.find _ (selectedTools st)) as [[t|]|] eqn:E.
    - by rewrite step_Add_FileBacked, E.
    - rewrite step_Add_FileBacked. cbn [selectedTools].
      by rewrite (find_append _ _ E).
    - by rewrite step_Add_FileBacked, E. }
  split; [exact HF|]. split.
  - rewrite (step_Add_ToolsManager st).
    destruct (JsArray.find _ (selectedTools st)) as [[t|]|] eqn:E.
    + by rewrite step_Add_ToolsManager, E.
    + rewrite step_Add_ToolsManager. cbn [selectedTools].
      by rewrite (find_append _ _ E).
    + by rewrite step_Add_ToolsManager, E.
  - change (selectedTools (FileBackedEngine.step
                         (FileBackedEngine.step st (Add tool)) (Add tool))
            = selectedTools (FileBackedEngine.step st (Add tool))).
    by rewrite HF.
Qed.

(** On an array with an [undefined] entry, which [moveItem] can leave, the
    callback of [removeTool] throws and nothing is set. *)
Lemma removeTool_undefined_throws (l : list ITool) (a : list slot) (toolId : string) :
  ToolsManager.removeTool (tools l ++ None :: a) toolId = ([], TypeError)
  ∧ FileBacked.removeTool (tools l ++ None :: a) toolId = ([], TypeError).
Proof.
  unfold ToolsManager.removeTool, FileBacked.removeTool.
  assert (JsArray.filter
            (λ tool, i ← JsArray.get_id tool; mret (negb (String.eqb i toolId)))
            (tools l ++ None :: a) = TypeError) as ->; [|done].
  induction l as [|t l IH]; [done|].
  change (tools (t :: l) ++ None :: a) with (Some t :: (tools l ++ None :: a)).
  cbn [JsArray.filter]. by rewrite IH.
Qed.

(** C10. On a selection of tools, [removeTool(x)] sets the selection to the
    entries whose id is not [x], in the order they were in: no entry with id
    [x] is left, every other entry is left, and the result is a sublist of
    the selection. The file-backed variant writes that same array. *)
Theorem removeTool_filters (l : list ITool) (toolId : string) :
  let r := filter (λ t, id t ≠ toolId) l in
  ToolsManager.removeTool (tools l) toolId = ([SetSelectedTools (tools r)], Normal ())
  ∧ FileBacked.removeTool (tools l) toolId
    = ([SetSelectedTools (tools r); Save (tools r)], Normal ())
  ∧ (∀ t, t ∈ r ↔ t ∈ l ∧ id t ≠ toolId)
  ∧ r `sublist_of` l.
Proof.
  intros r. unfold ToolsManager.removeTool, FileBacked.removeTool.
  rewrite filter_tools, !bind_lift_Normal. fold r.
  split; [done|]. split; [done|]. split; [|apply sublist_filter].
  intros t. unfold r. rewrite list_elem_of_filter.
  split; intros [? ?]; done.
Qed.

(** ** Filtering *)

Section FilterFacts.

Import JsString.
Local Open Scope string_scope.

Implicit Types (c d : ascii) (s t q u v : string).

Lemma capital_range (n : N) :
  ((65 <=? n) && (n <=? 90))%N = true ↔ (65 ≤ n ≤ 90)%N.
Proof. by rewrite andb_true_iff, !N.leb_le. Qed.

Lemma lower_capital n :
  (65 ≤ n ≤ 90)%N →
  lower (ascii_of_N n) = ascii_of_N (n + 32)
  ∧ lower (ascii_of_N (n + 32)) = ascii_of_N (n + 32).
Proof.
  intros H. unfold lower.
  rewrite !N_ascii_embedding by lia.
  rewrite (proj2 (capital_range n) H).
  destruct ((65 <=? n + 32) && (n + 32 <=? 90))%N eqn:E; [|done].
  apply capital_range in E. lia.
Qed.

(** Two characters have the same lower case exactly when they are the same
    letter. *)
Lemma lower_same_letter c d : lower c = lower d ↔ same_letter c d.
Proof.
  split.
  - unfold lower, same_letter, capital_of.
    pose proof (N_ascii_bounded c) as Hc. pose proof (N_ascii_bounded d) as Hd.
    pose proof (ascii_N_embedding c) as Ec. pose proof (ascii_N_embedding d) as Ed.
    destruct ((65 <=? N_of_ascii c) && (N_of_ascii c <=? 90))%N eqn:Uc;
      destruct ((65 <=? N_of_ascii d) && (N_of_ascii d <=? 90))%N eqn:Ud;
      intros H; try apply capital_range in Uc; try apply capital_range in Ud.
    + left.
      apply (f_equal N_of_ascii) in H. rewrite !N_ascii_embedding in H by lia.
      rewrite <- Ec, <- Ed. f_equal. lia.
    + right; left.
      exists (N_of_ascii c). split; [lia|]. by split.
    + right; right.
      exists (N_of_ascii d). split; [lia|]. by split.
    + by left.
  - intros [->|[(n & Hn & -> & ->)|(n & Hn & -> & ->)]]; [done| |].
    + by destruct (lower_capital n Hn) as [-> ->].
    + by destruct (lower_capital n Hn) as [-> ->].
Qed.

Lemma lower_each_app s t : lower_each (s ++ t) = lower_each s ++ lower_each t.
Proof. induction s as [|c s IH]; simpl; [done|by rewrite IH]. Qed.

Lemma lower_each_app_inv t u v :
  lower_each t = u ++ v →
  ∃ t1 t2, t = t1 ++ t2 ∧ lower_each t1 = u ∧ lower_each t2 = v.
Proof.
  revert t. induction u as [|c u IH]; intros t H.
  - by exists "", t.
  - destruct t as [|d t]; simpl in H; [done|].
    injection H as Hc Ht. destruct (IH t Ht) as (t1 & t2 & -> & H1 & H2).
    exists (String d t1), t2. simpl. by rewrite Hc, H1.
Qed.

Lemma lower_each_same_text s t : lower_each s = lower_each t ↔ same_text s t.
Proof.
  revert t. induction s as [|c s IH]; intros [|d t]; simpl; try done.
  rewrite <- IH, <- lower_same_letter. split.
  - by intros [= ? ?].
  - by intros [-> ->].
Qed.

Lemma startsWith_spec s sub : startsWith s sub = true ↔ ∃ post, s = sub ++ post.
Proof.
  revert s. induction sub as [|d sub IH]; intros s.
  - destruct s; simpl; (split; [intros _; by eexists|done]).
  - destruct s as [|c s]; simpl.
    + split; [done|]. by intros [post ?].
    + rewrite andb_true_iff, IH. split.
      * intros [Hc [post ->]]. apply Ascii.eqb_eq in Hc as ->. by exists post.
      * intros [post [= -> ->]]. split; [apply Ascii.eqb_refl|by exists post].
Qed.

Lemma includes_spec s sub : includes s sub = true ↔ ∃ pre post, s = pre ++ sub ++ post.
Proof.
  induction s as [|c s IH]; cbn [includes].
  - rewrite orb_false_r, startsWith_spec. split.
    + intros [post H]. by exists "", post.
    + intros (pre & post & H). destruct pre; simpl in H; [by exists post|done].
  - rewrite orb_true_iff, IH, startsWith_spec. split.
    + intros [[post H]|(pre & post & ->)].
      * by exists "", post.
      * by exists (String c pre), post.
    + intros (pre & post & H). destruct pre as [|c' pre]; simpl in H.
      * left. by exists post.
      * right. injection H as -> ->. by exists pre, post.
Qed.

Lemma includes_lower_each q t :
  includes (lower_each t) (lower_each q) = true ↔ ci_substring q t.
Proof.
  rewrite includes_spec. unfold ci_substring. split.
  - intros (pre' & post' & H).
    apply lower_each_app_inv in H as (pre & rest & -> & _ & H).
    apply lower_each_app_inv in H as (mid & post & -> & H & _).
    exists pre, mid, post. split; [done|]. by apply lower_each_same_text.
  - intros (pre & mid & post & -> & H). apply lower_each_same_text in H.
    exists (lower_each pre), (lower_each post).
    by rewrite !lower_each_app, H.
Qed.

(** No Greek letter of the model starts with an ASCII byte. *)
Lemma greek_of_ascii c d : (N_of_ascii c < 128)%N → greek_of c d = None.
Proof.
  intros H. unfold greek_of.
  destruct (N.eqb_spec (N_of_ascii c) 206); [lia|].
  destruct (N.eqb_spec (N_of_ascii c) 207); [lia|]. done.
Qed.

(** On a string of ASCII characters [toLowerCase] lowers each character by
    itself, whatever came before. *)
Lemma toLowerCase_from_ascii (b : bool) s :
  ascii_only s = true → toLowerCase_from b s = lower_each s.
Proof.
  revert b. induction s as [|c s IH]; intros b H; [done|].
  simpl in H. apply andb_true_iff in H as [Hc Hs]. apply N.ltb_lt in Hc.
  cbn [toLowerCase_from lower_each].
  destruct s as [|d s']; [done|].
  rewrite greek_of_ascii by done. f_equal. by apply IH.
Qed.

Lemma toLowerCase_ascii s : ascii_only s = true → toLowerCase s = lower_each s.
Proof. apply toLowerCase_from_ascii. Qed.

(** For strings of ASCII characters the test of [filteredAvailableTools]
    holds exactly when the search term occurs in the title, the case of
    letters ignored. *)
Lemma includes_toLowerCase q t :
  ascii_only q = true → ascii_only t = true →
  includes (toLowerCase t) (toLowerCase q) = true ↔ ci_substring q t.
Proof.
  intros Hq Ht. rewrite !toLowerCase_ascii by done. apply includes_lower_each.
Qed.

End FilterFacts.

Lemma selects_elem_of {A} (P : A → Prop) (l r : list A) :
  selects P l r → ∀ x, x ∈ r ↔ x ∈ l ∧ P x.
Proof.
  induction 1 as [|y l r Hy _ IH|y l r Hy _ IH]; intros x.
  - split; [by intros ?%elem_of_nil|by intros [?%elem_of_nil _]].
  - rewrite !elem_of_cons, IH. split.
    + intros [->|[? ?]]; [by split; [left|]|by split; [right|]].
    + intros [[->|?] ?]; [by left|by right].
  - rewrite elem_of_cons, IH. split.
    + intros [? ?]. by split; [right|].
    + intros [[->|?] ?]; done.
Qed.

Lemma selects_sublist {A} (P : A → Prop) (l r : list A) :
  selects P l r → r `sublist_of` l.
Proof.
  induction 1; [done|by apply sublist_skip|by apply sublist_cons].
Qed.

Lemma filteredAvailableTools_selects (availableTools : list ITool) (searchTerm : string) :
  Forall (λ t, ascii_only (title t) = true) availableTools →
  ascii_only searchTerm = true →
  selects (λ t, ci_substring searchTerm (title t)) availableTools
          (filteredAvailableTools availableTools searchTerm).
Proof.
  intros Hl Hq. unfold filteredAvailableTools.
  induction Hl as [|t l Ht Hl IH]; cbn [List.filter]; [constructor|].
  destruct (JsString.includes _ _) eqn:E.
  - apply selects_keep; [by apply includes_toLowerCase|done].
  - apply selects_skip; [|done].
    intros H. apply includes_toLowerCase in H; [congruence|done|done].
Qed.

(** C8, as stated, fails outside the ASCII range: the test compares the
    lower cases of the whole title and of the whole search term, and
    [toLowerCase] turns a capital sigma at the end of a word into the final
    sigma. The title of two letters, capital alpha and capital sigma, holds
    the term capital sigma as it is written, and the view for that term does
    not show it. *)
Lemma filteredAvailableTools_final_sigma :
  let T := mkTool "1" "ΑΣ" "" "#" in
  title T = ("Α" ++ "Σ" ++ "")%string
  ∧ ci_substring "Σ" (title T)
  ∧ T ∈ [T]
  ∧ JsString.toLowerCase (title T) = "ας"%string
  ∧ JsString.toLowerCase "Σ" = "σ"%string
  ∧ filteredAvailableTools [T] "Σ" = [].
Proof.
  intros T. split; [reflexivity|]. split.
  - exists "Α"%string, "Σ"%string, ""%string. split; [reflexivity|].
    simpl. split; [by left|]. split; [by left|done].
  - split; [apply list_elem_of_here|]. by repeat split.
Qed.

(** C8, amended. For a catalog with titles of ASCII characters and a search
    term of ASCII characters, the available view is the catalog filtered, in
    catalog order, by "the search term occurs in the title, the case of
    letters ignored": it has exactly the catalog tools with that property,
    it is a sublist of the catalog, and whether a tool is in the selection
    plays no part. With the catalog Workday, Time Mgr, the term [wor] leaves
    Workday. *)
Theorem filteredAvailableTools_spec (availableTools : list ITool) (searchTerm : string)
    (selectedTools : list slot) :
  Forall (λ t, ascii_only (title t) = true) availableTools →
  ascii_only searchTerm = true →
  let view := filteredAvailableTools availableTools searchTerm in
  selects (λ t, ci_substring searchTerm (title t)) availableTools view
  ∧ (∀ t, t ∈ view ↔ t ∈ availableTools ∧ ci_substring searchTerm (title t))
  ∧ view `sublist_of` availableTools
  ∧ (∀ t, t ∈ availableTools → ci_substring searchTerm (title t) →
          id t ∈ ids selectedTools → t ∈ view)
  ∧ (∀ i1 ic1 u1 i2 ic2 u2 : string,
          filteredAvailableTools
            [mkTool i1 "Workday" ic1 u1; mkTool i2 "Time Mgr" ic2 u2] "wor"
          = [mkTool i1 "Workday" ic1 u1]).
Proof.
  intros Hl Hq view.
  pose proof (filteredAvailableTools_selects availableTools searchTerm Hl Hq) as Hv.
  fold view in Hv.
  pose proof (selects_elem_of _ _ _ Hv) as Hin.
  split; [exact Hv|]. split; [exact Hin|].
  split; [by eapply selects_sublist|]. split.
  - intros t Ht Hm _. by apply Hin.
  - done.
Qed.

Lemma filteredAvailableTools_spec_witness :
  let W := mkTool "1" "Workday" "" "#" in
  let T := mkTool "2" "Time Mgr" "" "#" in
  Forall (λ t, ascii_only (title t) = true) [W; T]
  ∧ ascii_only "WORK" = true
  ∧ W ∈ [W; T]
  ∧ ci_substring "WORK" (title W)
  ∧ id W ∈ ids (tools [W])
  ∧ W ∈ filteredAvailableTools [W; T] "WORK".
Proof.
  intros W T.
  assert (Forall (λ t, ascii_only (title t) = true) [W; T]) as H0
    by (repeat constructor).
  assert (W ∈ [W; T]) as H1 by apply list_elem_of_here.
  assert (ci_substring "WORK" (title W)) as H2
    by (by apply includes_lower_each).
  assert (id W ∈ ids (tools [W])) as H3 by apply list_elem_of_here.
  pose proof (filteredAvailableTools_spec [W; T] "WORK" (tools [W]) H0 eq_refl)
    as (_ & _ & _ & H & _).
  exact (conj H0 (conj eq_refl (conj H1 (conj H2 (conj H3 (H W H1 H2 H3)))))).
Defined.

(** * Further properties of the handlers *)

(** ** [moveItem] with any indices *)

Section MoveAnyFacts.

Implicit Types (a v : list slot) (i j k : nat).

Lemma splice_lengths a (start deleteCount : Z) items :
  length (JsArray.splice a start deleteCount items).1
  + length (JsArray.splice a start deleteCount items).2
  = length items + length a.
Proof.
  rewrite <- !length_app. apply Permutation_length, splice_Permutation.
Qed.

Lemma omap_first a :
  (length a ≤ 1)%nat → omap (λ s : slot, s) [JsArray.first a] = omap (λ s : slot, s) a.
Proof. destruct a as [|s [|s' a]]; simpl; [done|done|lia]. Qed.

(** The tools of the array after the two splices are those before. *)
Lemma splice_twice_tools a (fromIndex toIndex : Z) :
  omap (λ s : slot, s)
    (JsArray.splice
       (JsArray.splice a fromIndex 1 []).1 toIndex 0
       [JsArray.first (JsArray.splice a fromIndex 1 []).2]).1
  ≡ₚ omap (λ s : slot, s) a.
Proof.
  pose proof (splice_Permutation a fromIndex 1 []) as H1.
  pose proof (splice_removed_length a fromIndex 1 []) as Hlen.
  set (a1 := (JsArray.splice a fromIndex 1 []).1) in *.
  set (removed := (JsArray.splice a fromIndex 1 []).2) in *.
  pose proof (splice_Permutation a1 toIndex 0 [JsArray.first removed]) as H2.
  pose proof (splice_removed_length a1 toIndex 0 [JsArray.first removed]) as Hlen2.
  destruct ((JsArray.splice a1 toIndex 0 [JsArray.first removed]).2) as [|? ?];
    [|simpl in Hlen2; lia].
  rewrite app_nil_r in H2. simpl in H1.
  rewrite H2, <- H1, !omap_app, omap_first by lia.
  apply Permutation_app_comm.
Qed.

(** [splice(start, 1)] with [start] before the end of a non-empty array takes
    exactly one element out. *)
Lemma splice_removes_one a (start : Z) :
  (start < Z.of_nat (length a))%Z → (0 < length a)%nat →
  length (JsArray.splice a start 1 []).2 = 1.
Proof.
  intros Hs Hl. unfold JsArray.splice. cbn [snd].
  rewrite length_take, length_drop.
  destruct (start <? 0)%Z eqn:E; lia.
Qed.

(** [splice(start, 1)] with [start] at the end or after it takes nothing. *)
Lemma splice_past_end a (start : Z) :
  (Z.of_nat (length a) ≤ start)%Z → JsArray.splice a start 1 [] = (a, []).
Proof.
  intros Hs. unfold JsArray.splice.
  replace (start <? 0)%Z with false by lia.
  replace (Z.to_nat (Z.min start (Z.of_nat (length a)))) with (length a) by lia.
  replace (Z.to_nat (Z.min (Z.max 1 0)
             (Z.of_nat (length a) - Z.min start (Z.of_nat (length a))))) with 0 by lia.
  rewrite take_ge, drop_ge by lia. simpl. by rewrite app_nil_r, drop_ge by lia.
Qed.

(** A negative [start] is the index counted from the end, not below [0]. *)
Lemma splice_negative a (start deleteCount : Z) items :
  (start < 0)%Z →
  JsArray.splice a start deleteCount items
  = JsArray.splice a (Z.max (Z.of_nat (length a) + start) 0) deleteCount items.
Proof.
  intros Hs. unfold JsArray.splice.
  replace (start <? 0)%Z with true by lia.
  replace (Z.max (Z.of_nat (length a) + start) 0 <? 0)%Z with false by lia.
  replace (Z.min (Z.max (Z.of_nat (length a) + start) 0) (Z.of_nat (length a)))
    with (Z.max (Z.of_nat (length a) + start) 0) by lia.
  done.
Qed.

(** A splice move there and back gives the list again. *)
Lemma splice_move_inverse {A} (l : list A) i j :
  i < length l → j < length l → splice_move (splice_move l i j) j i = l.
Proof.
  intros Hi Hj.
  pose proof (splice_move_length l i j Hi Hj) as Hlen.
  apply list_eq. intros k.
  destruct (decide (k = i)) as [->|Hk].
  - rewrite splice_move_lookup_target by lia.
    by apply splice_move_lookup_target.
  - rewrite splice_move_lookup_other by lia.
    assert (source_index j i k ≠ j) as Hne
      by (unfold source_index; repeat case_decide; lia).
    rewrite splice_move_lookup_other by done.
    f_equal. unfold source_index. repeat case_decide; lia.
Qed.

End MoveAnyFacts.

(** X1. Whatever the two indices, when [moveItem] sets the state the tools
    of the new array are those of the old one, none lost and none twice.
    With [fromIndex] before the end the length is kept; with [fromIndex] at
    the end or past it nothing is taken out and [undefined] is put at
    [toIndex], one entry more. The file-backed variant sets the same array
    and writes it. *)
Theorem moveItem_keeps_tools (a v : list slot) (fromIndex toIndex : Z) :
  last_set (ToolsManager.moveItem a fromIndex toIndex).1 = Some v →
  omap (λ s : slot, s) v ≡ₚ omap (λ s : slot, s) a
  ∧ ((fromIndex < Z.of_nat (length a))%Z → length v = length a)
  ∧ ((Z.of_nat (length a) ≤ fromIndex)%Z →
     v = take (Z.to_nat toIndex) a ++ None :: drop (Z.to_nat toIndex) a)
  ∧ FileBacked.moveItem a fromIndex toIndex = ([SetSelectedTools v; Save v], Normal ()).
Proof.
  unfold ToolsManager.moveItem, FileBacked.moveItem.
  destruct (_ || _)%bool eqn:G; [done|].
  apply orb_false_iff in G as [G1 G2].
  pose proof (splice_twice_tools a fromIndex toIndex) as Hp.
  pose proof (splice_lengths a fromIndex 1 []) as L1.
  pose proof (splice_removes_one a fromIndex) as R1.
  pose proof (splice_past_end a fromIndex) as P1.
  destruct (JsArray.splice a fromIndex 1 []) as [a1 removed].
  cbn [fst snd] in Hp, L1, R1.
  pose proof (splice_lengths a1 toIndex 0 [JsArray.first removed]) as L2.
  pose proof (splice_removed_length a1 toIndex 0 [JsArray.first removed]) as R2.
  pose proof (splice_insert_in_range a1 (Z.to_nat toIndex) (JsArray.first removed)) as I2.
  rewrite Z2Nat.id in I2 by lia.
  destruct (JsArray.splice a1 toIndex 0 _) as [a2 r2].
  cbn [fst snd] in Hp, L2, R2. simpl. intros [= <-].
  split; [exact Hp|]. split; [|split; [|done]].
  - intros Hf. simpl in L1, L2. specialize (R1 Hf ltac:(lia)). lia.
  - intros Hf. specialize (P1 Hf). injection P1 as -> ->.
    specialize (I2 ltac:(lia)). by injection I2 as -> _.
Qed.

Lemma moveItem_keeps_tools_witness :
  let A := mkTool "1" "Workday" "" "#" in
  let B := mkTool "2" "Time Mgr" "" "#" in
  last_set (ToolsManager.moveItem (tools [A; B]) 7 1).1 = Some [Some A; None; Some B]
  ∧ omap (λ s : slot, s) [Some A; None; Some B] ≡ₚ omap (λ s : slot, s) (tools [A; B]).
Proof.
  intros A B.
  assert (last_set (ToolsManager.moveItem (tools [A; B]) 7 1).1
          = Some [Some A; None; Some B]) as H by reflexivity.
  exact (conj H (proj1 (moveItem_keeps_tools (tools [A; B]) _ 7 1 H))).
Defined.

(** X2. A negative [fromIndex] counts from the end: with
    [-length <= fromIndex < 0] and [toIndex] in range, [moveItem] moves the
    entry at [length + fromIndex] to [toIndex], as a splice move. *)
Theorem moveItem_negative_from (a : list slot) (fromIndex toIndex : Z) :
  (- Z.of_nat (length a) ≤ fromIndex < 0)%Z →
  (0 ≤ toIndex < Z.of_nat (length a))%Z →
  let r := splice_move a (Z.to_nat (Z.of_nat (length a) + fromIndex)) (Z.to_nat toIndex) in
  ToolsManager.moveItem a fromIndex toIndex = ([SetSelectedTools r], Normal ())
  ∧ FileBacked.moveItem a fromIndex toIndex = ([SetSelectedTools r; Save r], Normal ()).
Proof.
  intros Hf Ht r.
  assert (0 ≤ Z.of_nat (length a) + fromIndex < Z.of_nat (length a))%Z as Hf' by lia.
  destruct (moveItem_in_range a _ toIndex Hf' Ht) as [HT HF]. fold r in HT, HF.
  rewrite <- HT, <- HF.
  unfold ToolsManager.moveItem, FileBacked.moveItem.
  rewrite (splice_negative a fromIndex) by lia.
  by replace (Z.max (Z.of_nat (length a) + fromIndex) 0)
    with (Z.of_nat (length a) + fromIndex)%Z by lia.
Qed.

Lemma moveItem_negative_from_witness :
  let A := mkTool "1" "Workday" "" "#" in
  let B := mkTool "2" "Time Mgr" "" "#" in
  let C := mkTool "3" "Fidelity" "" "#" in
  (- Z.of_nat (length (tools [A; B; C])) ≤ -1 < 0)%Z
  ∧ (0 ≤ 0 < Z.of_nat (length (tools [A; B; C])))%Z
  ∧ ToolsManager.moveItem (tools [A; B; C]) (-1) 0
    = ([SetSelectedTools (tools [C; A; B])], Normal ()).
Proof.
  intros A B C.
  assert (- Z.of_nat (length (tools [A; B; C])) ≤ -1 < 0)%Z as H1 by (simpl; lia).
  assert (0 ≤ 0 < Z.of_nat (length (tools [A; B; C])))%Z as H2 by (simpl; lia).
  exact (conj H1 (conj H2 (proj1 (moveItem_negative_from (tools [A; B; C]) (-1) 0 H1 H2)))).
Defined.

(** X3. With both indices in range, moving an entry from [i] to [j] and then
    from [j] to [i] gives the selection there was; the file-backed variant
    has written twice by then. *)
Theorem moveItem_there_and_back (a : list slot) (ws : list (list slot)) (i j : Z) :
  (0 ≤ i < Z.of_nat (length a))%Z →
  (0 ≤ j < Z.of_nat (length a))%Z →
  selectedTools (ToolsManagerEngine.run (mkEngine a ws) [Move i j; Move j i]) = a
  ∧ selectedTools (FileBackedEngine.run (mkEngine a ws) [Move i j; Move j i]) = a
  ∧ length (writes (FileBackedEngine.run (mkEngine a ws) [Move i j; Move j i]))
    = length ws + 2.
Proof.
  intros Hi Hj.
  set (r := splice_move a (Z.to_nat i) (Z.to_nat j)).
  assert (length r = length a) as Hlen by (apply splice_move_length; lia).
  destruct (moveItem_in_range a i j Hi Hj) as [HT1 HF1]. fold r in HT1, HF1.
  destruct (moveItem_in_range r j i ltac:(lia) ltac:(lia)) as [HT2 HF2].
  unfold r in HT2 at 2, HF2 at 2 3. rewrite splice_move_inverse in HT2, HF2 by lia.
  unfold ToolsManagerEngine.run, FileBackedEngine.run. cbn [foldl].
  unfold ToolsManagerEngine.step, FileBackedEngine.step, commit.
  cbn [selectedTools writes ToolsManagerEngine.handle FileBackedEngine.handle].
  rewrite HT1, HF1. cbn. rewrite HT2, HF2. cbn.
  split; [done|]. split; [done|]. rewrite !length_app. simpl. lia.
Qed.

Lemma moveItem_there_and_back_witness :
  let A := mkTool "1" "Workday" "" "#" in
  let B := mkTool "2" "Time Mgr" "" "#" in
  let C := mkTool "3" "Fidelity" "" "#" in
  (0 ≤ 0 < Z.of_nat (length (tools [A; B; C])))%Z
  ∧ (0 ≤ 2 < Z.of_nat (length (tools [A; B; C])))%Z
  ∧ selectedTools (ToolsManagerEngine.run (mkEngine (tools [A; B; C]) [])
                     [Move 0 2; Move 2 0]) = tools [A; B; C].
Proof.
  intros A B C.
  assert (0 ≤ 0 < Z.of_nat (length (tools [A; B; C])))%Z as H1 by (simpl; lia).
  assert (0 ≤ 2 < Z.of_nat (length (tools [A; B; C])))%Z as H2 by (simpl; lia).
  exact (conj H1 (conj H2
           (proj1 (moveItem_there_and_back (tools [A; B; C]) [] 0 2 H1 H2)))).
Defined.

(** ** The buttons *)

Section ButtonFacts.

Implicit Types (a : list slot) (l : list ITool) (i k : nat).

(** A splice move to the place next to it exchanges the two neighbours. *)
Lemma splice_move_neighbours {A} (l : list A) i :
  S i < length l →
  (∀ r, r = splice_move l (S i) i ∨ r = splice_move l i (S i) →
     length r = length l
     ∧ r !! i = l !! S i
     ∧ r !! S i = l !! i
     ∧ ∀ k, k ≠ i → k ≠ S i → r !! k = l !! k).
Proof.
  intros Hi r [-> | ->].
  - split; [apply splice_move_length; lia|].
    split; [apply splice_move_lookup_target; lia|].
    split.
    + rewrite splice_move_lookup_other by lia.
      f_equal. unfold source_index. repeat case_decide; lia.
    + intros k H1 H2. rewrite splice_move_lookup_other by lia.
      f_equal. unfold source_index. repeat case_decide; lia.
  - split; [apply splice_move_length; lia|].
    split.
    + rewrite splice_move_lookup_other by lia.
      f_equal. unfold source_index. repeat case_decide; lia.
    + split; [apply splice_move_lookup_target; lia|].
      intros k H1 H2. rewrite splice_move_lookup_other by lia.
      f_equal. unfold source_index. repeat case_decide; lia.
Qed.

Lemma some_tools l (x : string) :
  some (λ t, i ← JsArray.get_id t; mret (String.eqb i x)) (tools l)
  = Normal (bool_decide (x ∈ id <$> l)).
Proof.
  induction l as [|t l IH]; [done|].
  change (tools (t :: l)) with (Some t :: tools l). cbn [some].
  unfold mret, completion_ret in *. simpl.
  destruct (String.eqb (id t) x) eqn:E.
  - apply String.eqb_eq in E. symmetry. f_equal. apply bool_decide_eq_true.
    rewrite E. apply list_elem_of_here.
  - apply String.eqb_neq in E. rewrite IH. f_equal.
    apply bool_decide_ext. rewrite elem_of_cons.
    split; [by right|]. intros [?|?]; [congruence|done].
Qed.

Lemma find_tools l (x : string) :
  JsArray.find (λ t, i ← JsArray.get_id t; mret (String.eqb i x)) (tools l) = Normal None
  ↔ x ∉ id <$> l.
Proof.
  induction l as [|t l IH].
  - split; [intros _; apply not_elem_of_nil|done].
  - change (tools (t :: l)) with (Some t :: tools l). cbn [JsArray.find].
    unfold mret, completion_ret in *. simpl.
    rewrite not_elem_of_cons.
    destruct (String.eqb (id t) x) eqn:E.
    + apply String.eqb_eq in E. split; [done|]. by intros [? _].
    + apply String.eqb_neq in E. rewrite IH. split; [by intros ?; split|by intros [_ ?]].
Qed.

Lemma find_tools_total l (x : string) :
  JsArray.find (λ t, i ← JsArray.get_id t; mret (String.eqb i x)) (tools l) ≠ TypeError.
Proof.
  induction l as [|t l IH]; [done|].
  change (tools (t :: l)) with (Some t :: tools l). cbn [JsArray.find].
  unfold mret, completion_ret in *. simpl.
  by destruct (String.eqb (id t) x).
Qed.

(** Among entries with different ids, the filter by an id takes out the one
    entry that has it. *)
Lemma filter_delete l i (t : ITool) :
  NoDup (id <$> l) → l !! i = Some t →
  filter (λ t', id t' ≠ id t) l = delete i l.
Proof.
  revert i. induction l as [|t' l IH]; intros i Hnd Hi; [done|].
  rewrite fmap_cons in Hnd. apply NoDup_cons in Hnd as [Hnot Hnd].
  destruct i as [|i]; simpl in Hi.
  - injection Hi as ->. rewrite filter_cons_False by (intros ?; done).
    simpl. by apply filter_absent.
  - rewrite filter_cons_True.
    + simpl. f_equal. by apply IH.
    + intros E. apply Hnot. rewrite E.
      apply list_elem_of_fmap_2. by eapply list_elem_of_lookup_2.
Qed.

(** [moveItem] either stops at its guard or sets the state. *)
Lemma moveItem_cases a (fromIndex toIndex : Z) :
  (((toIndex < 0)%Z ∨ (Z.of_nat (length a) ≤ toIndex)%Z)
   ∧ ToolsManager.moveItem a fromIndex toIndex = ([], Normal ()))
  ∨ ((0 ≤ toIndex < Z.of_nat (length a))%Z
     ∧ ∃ v, ToolsManager.moveItem a fromIndex toIndex = ([SetSelectedTools v], Normal ())).
Proof.
  destruct (decide (0 ≤ toIndex < Z.of_nat (length a))%Z) as [H|H].
  - right. split; [done|]. unfold ToolsManager.moveItem.
    rewrite moveItem_guard_false by done.
    destruct (JsArray.splice a fromIndex 1 []) as [a1 removed].
    destruct (JsArray.splice a1 toIndex 0 _) as [a2 r2]. by eexists.
  - left. split; [lia|]. unfold ToolsManager.moveItem.
    by rewrite moveItem_guard_true by lia.
Qed.

End ButtonFacts.

(** X4. On a row that has a row above it, Move Up is enabled and its click
    exchanges the row with the one above; on a row that has a row below it,
    Move Down is enabled and its click exchanges the row with the one below.
    The other rows stay where they are. *)
Theorem move_buttons_exchange (a : list slot) (i : nat) :
  S i < length a →
  (∃ r, Buttons.moveUp_disabled (Z.of_nat (S i)) = false
        ∧ Buttons.moveUp_onClick a (Z.of_nat (S i)) = ([SetSelectedTools r], Normal ())
        ∧ length r = length a ∧ r !! i = a !! S i ∧ r !! S i = a !! i
        ∧ ∀ k : nat, k ≠ i → k ≠ S i → r !! k = a !! k)
  ∧ (∃ r, Buttons.moveDown_disabled a (Z.of_nat i) = false
          ∧ Buttons.moveDown_onClick a (Z.of_nat i) = ([SetSelectedTools r], Normal ())
          ∧ length r = length a ∧ r !! i = a !! S i ∧ r !! S i = a !! i
          ∧ ∀ k : nat, k ≠ i → k ≠ S i → r !! k = a !! k).
Proof.
  intros Hi. split.
  - exists (splice_move a (S i) i).
    split; [unfold Buttons.moveUp_disabled; apply Z.eqb_neq; lia|].
    split.
    + unfold Buttons.moveUp_onClick.
      destruct (moveItem_in_range a (Z.of_nat (S i)) (Z.of_nat (S i) - 1)
                  ltac:(lia) ltac:(lia)) as [-> _].
      do 3 f_equal. f_equal; lia.
    + by apply (splice_move_neighbours a i Hi); left.
  - exists (splice_move a i (S i)).
    split; [unfold Buttons.moveDown_disabled; apply Z.eqb_neq; lia|].
    split.
    + unfold Buttons.moveDown_onClick.
      destruct (moveItem_in_range a (Z.of_nat i) (Z.of_nat i + 1)
                  ltac:(lia) ltac:(lia)) as [-> _].
      do 3 f_equal. f_equal; lia.
    + by apply (splice_move_neighbours a i Hi); right.
Qed.

Lemma move_buttons_exchange_witness :
  let A := mkTool "1" "Workday" "" "#" in
  let B := mkTool "2" "Time Mgr" "" "#" in
  let C := mkTool "3" "Fidelity" "" "#" in
  2 < length (tools [A; B; C])
  ∧ ∃ r, Buttons.moveUp_onClick (tools [A; B; C]) 2 = ([SetSelectedTools r], Normal ())
         ∧ r !! 1 = Some (Some C) ∧ r !! 2 = Some (Some B).
Proof.
  intros A B C.
  assert (2 < length (tools [A; B; C])) as H by (simpl; lia).
  split; [exact H|].
  destruct (proj1 (move_buttons_exchange (tools [A; B; C]) 1 H))
    as (r & _ & Hr & _ & H1 & H2 & _).
  exists r. exact (conj Hr (conj H1 H2)).
Defined.

(** X5. On the rows of the list, a move button is disabled exactly when its
    click would be stopped by the guard of [moveItem]: Move Up on the first
    row and Move Down on the last would do nothing if they were clicked, and
    every enabled move button sets the state. *)
Theorem move_buttons_disabled (a : list slot) (index : Z) :
  (0 ≤ index < Z.of_nat (length a))%Z →
  (Buttons.moveUp_disabled index = true
   ↔ Buttons.moveUp_onClick a index = ([], Normal ()))
  ∧ (Buttons.moveUp_disabled index = false
     ↔ is_Some (last_set (Buttons.moveUp_onClick a index).1))
  ∧ (Buttons.moveDown_disabled a index = true
     ↔ Buttons.moveDown_onClick a index = ([], Normal ()))
  ∧ (Buttons.moveDown_disabled a index = false
     ↔ is_Some (last_set (Buttons.moveDown_onClick a index).1)).
Proof.
  intros Hi.
  unfold Buttons.moveUp_disabled, Buttons.moveDown_disabled,
    Buttons.moveUp_onClick, Buttons.moveDown_onClick.
  destruct (moveItem_cases a index (index - 1)) as [[Gu Hu]|[Gu [vu Hu]]];
    destruct (moveItem_cases a index (index + 1)) as [[Gd Hd]|[Gd [vd Hd]]];
    rewrite Hu, Hd; cbn [fst last_set].
  all: repeat split; intros H; try done.
  all: try (apply Z.eqb_eq; lia).
  all: try (apply Z.eqb_neq; lia).
  all: try (apply Z.eqb_eq in H; lia).
  all: try (apply Z.eqb_neq in H; lia).
  all: try (by destruct H).
  all: try (by eexists).
Qed.

Lemma move_buttons_disabled_witness :
  let A := mkTool "1" "Workday" "" "#" in
  let B := mkTool "2" "Time Mgr" "" "#" in
  (0 ≤ 0 < Z.of_nat (length (tools [A; B])))%Z
  ∧ Buttons.moveUp_disabled 0 = true
  ∧ Buttons.moveUp_onClick (tools [A; B]) 0 = ([], Normal ()).
Proof.
  intros A B.
  assert (0 ≤ 0 < Z.of_nat (length (tools [A; B])))%Z as H by (simpl; lia).
  exact (conj H (conj eq_refl
           (proj1 (proj1 (move_buttons_disabled (tools [A; B]) 0 H)) eq_refl))).
Defined.

(** X6. On a selection of tools, Add is disabled for an item exactly when an
    entry has the id of the item, whatever its other fields are, and then
    its click would set nothing; when it is enabled its click puts the item
    at the end of the selection. *)
Theorem add_button (l : list ITool) (item : ITool) :
  Buttons.add_disabled (tools l) item = Normal (bool_decide (id item ∈ id <$> l))
  ∧ (id item ∈ id <$> l → Buttons.add_onClick (tools l) item = ([], Normal ()))
  ∧ (id item ∉ id <$> l →
     Buttons.add_onClick (tools l) item
     = ([SetSelectedTools (tools (l ++ [item]))], Normal ())).
Proof.
  split; [apply some_tools|].
  unfold Buttons.add_onClick, ToolsManager.addTool.
  pose proof (find_tools l (id item)) as Hf.
  pose proof (find_tools_total l (id item)) as Ht.
  destruct (JsArray.find _ (tools l)) as [[t|]|]; [| |done].
  - rewrite bind_lift_Normal. split; [done|].
    intros Hn. apply Hf in Hn. done.
  - rewrite bind_lift_Normal. simpl. split.
    + intros Hin. exfalso. by apply (proj1 Hf).
    + intros _. unfold tools. by rewrite fmap_app.
Qed.

Lemma add_button_witness :
  let A := mkTool "1" "Workday" "" "#" in
  let A' := mkTool "1" "Workday (new)" "icon.png" "https://example.org" in
  let B := mkTool "2" "Time Mgr" "" "#" in
  id A' ∈ id <$> [A; B]
  ∧ Buttons.add_onClick (tools [A; B]) A' = ([], Normal ()).
Proof.
  intros A A' B.
  assert (id A' ∈ id <$> [A; B]) as H by apply list_elem_of_here.
  exact (conj H (proj1 (proj2 (add_button [A; B] A')) H)).
Defined.

(** X7. In a selection of tools with different ids, Remove on a row takes
    out that row and no other. *)
Theorem remove_button (l : list ITool) (i : nat) (item : ITool) :
  NoDup (id <$> l) →
  l !! i = Some item →
  Buttons.remove_onClick (tools l) item
  = ([SetSelectedTools (tools (delete i l))], Normal ())
  ∧ FileBacked.removeTool (tools l) (id item)
    = ([SetSelectedTools (tools (delete i l)); Save (tools (delete i l))], Normal ()).
Proof.
  intros Hnd Hi.
  unfold Buttons.remove_onClick, ToolsManager.removeTool, FileBacked.removeTool.
  rewrite filter_tools, !bind_lift_Normal.
  by rewrite (filter_delete l i item Hnd Hi).
Qed.

Lemma remove_button_witness :
  let A := mkTool "1" "Workday" "" "#" in
  let B := mkTool "2" "Time Mgr" "" "#" in
  let C := mkTool "3" "Fidelity" "" "#" in
  NoDup (id <$> [A; B; C])
  ∧ [A; B; C] !! 1 = Some B
  ∧ Buttons.remove_onClick (tools [A; B; C]) B
    = ([SetSelectedTools (tools (delete 1 [A; B; C]))], Normal ()).
Proof.
  intros A B C.
  assert (NoDup (id <$> [A; B; C])) as H
    by (apply (bool_decide_unpack _); vm_compute; exact I).
  exact (conj H (conj eq_refl (proj1 (remove_button [A; B; C] 1 B H eq_refl)))).
Defined.

(** ** One action after another *)

Section ComposeFacts.

Implicit Types (a v : list slot) (l : list ITool) (st : Engine) (o : op).

Lemma step_Remove_FileBacked l ws (toolId : string) :
  FileBackedEngine.step (mkEngine (tools l) ws) (Remove toolId)
  = mkEngine (tools (filter (λ t, id t ≠ toolId) l))
             (ws ++ [tools (filter (λ t, id t ≠ toolId) l)]).
Proof.
  unfold FileBackedEngine.step, commit.
  cbn [selectedTools writes FileBackedEngine.handle].
  unfold FileBacked.removeTool. by rewrite filter_tools, !bind_lift_Normal.
Qed.

Lemma step_Remove_ToolsManager l ws (toolId : string) :
  ToolsManagerEngine.step (mkEngine (tools l) ws) (Remove toolId)
  = mkEngine (tools (filter (λ t, id t ≠ toolId) l))
             (ws ++ [tools (filter (λ t, id t ≠ toolId) l)]).
Proof.
  unfold ToolsManagerEngine.step, commit.
  cbn [selectedTools writes ToolsManagerEngine.handle].
  unfold ToolsManager.removeTool. by rewrite filter_tools, !bind_lift_Normal.
Qed.

Lemma tools_app l l' : tools (l ++ l') = tools l ++ tools l'.
Proof. unfold tools. apply fmap_app. Qed.

(** A step leaves the engine as it was, or sets an array and writes it. *)
Lemma step_cases_FileBacked st o :
  FileBackedEngine.step st o = st
  ∨ ∃ v, FileBackedEngine.step st o = mkEngine v (writes st ++ [v]).
Proof.
  unfold FileBackedEngine.step, commit. rewrite handle_saved_FileBacked.
  destruct (last_set _) as [v|]; simpl.
  - right. by exists v.
  - left. destruct st. simpl. by rewrite app_nil_r.
Qed.

Lemma step_cases_ToolsManager st o :
  ToolsManagerEngine.step st o = st
  ∨ ∃ v, ToolsManagerEngine.step st o = mkEngine v (writes st ++ [v]).
Proof.
  unfold ToolsManagerEngine.step, commit.
  rewrite last_set_app, last_set_saveEffect, saved_app, handle_saved_ToolsManager.
  unfold ToolsManagerEngine.saveEffect.
  destruct (last_set _) as [v|]; simpl.
  - right. by exists v.
  - left. destruct st. simpl. by rewrite app_nil_r.
Qed.

End ComposeFacts.

(** X8. Adding a tool whose id is not in a selection of tools and then
    removing that id gives the selection there was; two writes were started
    on the way, the second with the selection as it was. *)
Theorem add_then_remove (l : list ITool) (ws : list (list slot)) (tool : ITool) :
  id tool ∉ id <$> l →
  FileBackedEngine.run (mkEngine (tools l) ws) [Add tool; Remove (id tool)]
  = mkEngine (tools l) (ws ++ [tools (l ++ [tool]); tools l])
  ∧ ToolsManagerEngine.run (mkEngine (tools l) ws) [Add tool; Remove (id tool)]
    = mkEngine (tools l) (ws ++ [tools (l ++ [tool]); tools l]).
Proof.
  intros H.
  assert (filter (λ t, id t ≠ id tool) (l ++ [tool]) = l) as Hf.
  { rewrite filter_app, filter_absent by done.
    rewrite filter_cons_False by (intros ?; done). apply app_nil_r. }
  unfold FileBackedEngine.run, ToolsManagerEngine.run. cbn [foldl].
  rewrite step_Add_FileBacked, step_Add_ToolsManager. cbn [selectedTools writes].
  rewrite (proj2 (find_tools l (id tool)) H).
  change [Some tool] with (tools [tool]). rewrite <- (tools_app l [tool]).
  rewrite step_Remove_FileBacked, step_Remove_ToolsManager, Hf.
  by rewrite <- !(assoc (++)).
Qed.

Lemma add_then_remove_witness :
  let A := mkTool "1" "Workday" "" "#" in
  let B := mkTool "2" "Time Mgr" "" "#" in
  let D := mkTool "4" "ATLAS Effects" "" "#" in
  (id D ∉ id <$> [A; B])
  ∧ FileBackedEngine.run (mkEngine (tools [A; B]) []) [Add D; Remove (id D)]
    = mkEngine (tools [A; B]) ([] ++ [tools ([A; B] ++ [D]); tools [A; B]]).
Proof.
  intros A B D.
  assert (id D ∉ id <$> [A; B]) as H
    by (apply (bool_decide_unpack _); vm_compute; exact I).
  exact (conj H (proj1 (add_then_remove [A; B] [] D H))).
Defined.

(** X9. On a selection of tools, removing an id a second time changes
    nothing in the selection, and removing two ids gives the same selection
    in either order. *)
Theorem remove_twice_and_swap (l : list ITool) (ws : list (list slot)) (x y : string) :
  selectedTools (FileBackedEngine.run (mkEngine (tools l) ws) [Remove x; Remove x])
  = selectedTools (FileBackedEngine.run (mkEngine (tools l) ws) [Remove x])
  ∧ selectedTools (FileBackedEngine.run (mkEngine (tools l) ws) [Remove x; Remove y])
    = selectedTools (FileBackedEngine.run (mkEngine (tools l) ws) [Remove y; Remove x])
  ∧ selectedTools (ToolsManagerEngine.run (mkEngine (tools l) ws) [Remove x; Remove x])
    = selectedTools (ToolsManagerEngine.run (mkEngine (tools l) ws) [Remove x])
  ∧ selectedTools (ToolsManagerEngine.run (mkEngine (tools l) ws) [Remove x; Remove y])
    = selectedTools (ToolsManagerEngine.run (mkEngine (tools l) ws) [Remove y; Remove x]).
Proof.
  unfold FileBackedEngine.run, ToolsManagerEngine.run. cbn [foldl].
  rewrite !step_Remove_FileBacked, !step_Remove_ToolsManager. cbn [selectedTools].
  rewrite !list_filter_filter.
  assert (filter (λ t, id t ≠ x ∧ id t ≠ x) l = filter (λ t, id t ≠ x) l) as ->
    by (apply list_filter_iff; intros t; split; [by intros [? _]|by intros ?; split]).
  assert (filter (λ t, id t ≠ y ∧ id t ≠ x) l = filter (λ t, id t ≠ x ∧ id t ≠ y) l) as ->
    by (apply list_filter_iff; intros t; split; intros [? ?]; by split).
  done.
Qed.

(** X10. When the last write started is the selection in memory, it still is
    after any sequence of [addTool], [removeTool] and [moveItem] calls: a
    handler that sets the state starts a write of what it set, and one that
    does not starts none. *)
Theorem last_write_is_selection (st : Engine) (os : list op) :
  last (writes st) = Some (selectedTools st) →
  last (writes (FileBackedEngine.run st os))
  = Some (selectedTools (FileBackedEngine.run st os))
  ∧ last (writes (ToolsManagerEngine.run st os))
    = Some (selectedTools (ToolsManagerEngine.run st os)).
Proof.
  intros H. split.
  - revert st H. induction os as [|o os IH]; intros st H; [done|].
    simpl. apply IH.
    destruct (step_cases_FileBacked st o) as [->|[v ->]]; [done|].
    simpl. apply last_snoc.
  - revert st H. induction os as [|o os IH]; intros st H; [done|].
    simpl. apply IH.
    destruct (step_cases_ToolsManager st o) as [->|[v ->]]; [done|].
    simpl. apply last_snoc.
Qed.

Lemma last_write_is_selection_witness :
  let A := mkTool "1" "Workday" "" "#" in
  let B := mkTool "2" "Time Mgr" "" "#" in
  let st := mkEngine (tools [A; B]) [tools [A]; tools [A; B]] in
  let os := [Move 1 0; Add A; Remove "7"; Move 0 5; Remove "1"] in
  last (writes st) = Some (selectedTools st)
  ∧ last (writes (FileBackedEngine.run st os))
    = Some (selectedTools (FileBackedEngine.run st os)).
Proof.
  intros A B st os.
  exact (conj eq_refl (proj1 (last_write_is_selection st os eq_refl))).
Defined.

(** ** Selections of tools stay selections of tools *)

Section DefinedFacts.

Implicit Types (a v : list slot) (l : list ITool) (i j : nat).

Lemma splice_move_tools l i j : splice_move (tools l) i j = tools (splice_move l i j).
Proof.
  unfold splice_move, tools. rewrite list_lookup_fmap.
  destruct (l !! i) as [x|]; simpl; [|done].
  by rewrite fmap_app, fmap_cons, fmap_take, fmap_drop, list_fmap_delete.
Qed.

(** With [fromIndex] before the end and [toIndex] in range, [moveItem] is a
    splice move from an index of the array. *)
Lemma moveItem_before_end a (fromIndex toIndex : Z) :
  (fromIndex < Z.of_nat (length a))%Z →
  (0 ≤ toIndex < Z.of_nat (length a))%Z →
  ∃ i, i < length a
       ∧ ToolsManager.moveItem a fromIndex toIndex
         = ([SetSelectedTools (splice_move a i (Z.to_nat toIndex))], Normal ()).
Proof.
  intros Hf Ht. destruct (decide (0 ≤ fromIndex)%Z) as [H0|H0].
  - exists (Z.to_nat fromIndex). split; [lia|].
    by destruct (moveItem_in_range a fromIndex toIndex ltac:(lia) Ht) as [-> _].
  - exists (Z.to_nat (Z.max (Z.of_nat (length a) + fromIndex) 0)). split; [lia|].
    destruct (moveItem_in_range a (Z.max (Z.of_nat (length a) + fromIndex) 0) toIndex
                ltac:(lia) Ht) as [<- _].
    unfold ToolsManager.moveItem. by rewrite (splice_negative a fromIndex) by lia.
Qed.

End DefinedFacts.

(** X11. On a selection of tools no handler throws, and the selection stays
    a selection of tools after [addTool], after [removeTool], and after
    [moveItem] with [fromIndex] before the end: no [undefined] entry comes
    in. *)
Theorem handlers_on_tools (l : list ITool) (o : op) :
  (ToolsManagerEngine.handle (tools l) o).2 = Normal ()
  ∧ (FileBackedEngine.handle (tools l) o).2 = Normal ()
  ∧ (match o with
     | Move fromIndex _ => (fromIndex < Z.of_nat (length l))%Z
     | _ => True
     end →
     ∃ l', ∀ ws,
       selectedTools (ToolsManagerEngine.step (mkEngine (tools l) ws) o) = tools l'
       ∧ selectedTools (FileBackedEngine.step (mkEngine (tools l) ws) o) = tools l').
Proof.
  split; [|split].
  - destruct o as [tool|toolId|i j]; simpl.
    + unfold ToolsManager.addTool.
      pose proof (find_tools_total l (id tool)) as Ht.
      destruct (JsArray.find _ (tools l)) as [[t|]|]; [| |done];
        by rewrite bind_lift_Normal.
    + unfold ToolsManager.removeTool. by rewrite filter_tools, bind_lift_Normal.
    + apply moveItem_returns.
  - destruct o as [tool|toolId|i j]; simpl.
    + unfold FileBacked.addTool.
      pose proof (find_tools_total l (id tool)) as Ht.
      destruct (JsArray.find _ (tools l)) as [[t|]|]; [| |done];
        by rewrite bind_lift_Normal.
    + unfold FileBacked.removeTool. by rewrite filter_tools, !bind_lift_Normal.
    + apply moveItem_returns.
  - intros Ho.
    assert (∃ l', default (tools l) (last_set (ToolsManagerEngine.handle (tools l) o).1)
                  = tools l') as [l' Hl'].
    { destruct o as [tool|toolId|i j]; simpl.
      - unfold ToolsManager.addTool.
        destruct (JsArray.find _ (tools l)) as [[t|]|]; [by exists l| |by exists l].
        rewrite bind_lift_Normal. exists (l ++ [tool]). simpl. by rewrite tools_app.
      - unfold ToolsManager.removeTool. rewrite filter_tools, bind_lift_Normal.
        by eexists.
      - destruct (moveItem_cases (tools l) i j) as [[_ ->]|[Hj _]]; [by exists l|].
        rewrite <- length_tools in Ho.
        destruct (moveItem_before_end (tools l) i j Ho Hj) as (k & _ & ->).
        rewrite splice_move_tools. by eexists. }
    exists l'. intros ws.
    by rewrite selection_step_ToolsManager, selection_step_FileBacked.
Qed.

Lemma handlers_on_tools_witness :
  let A := mkTool "1" "Workday" "" "#" in
  let B := mkTool "2" "Time Mgr" "" "#" in
  (-5 < Z.of_nat (length [A; B]))%Z
  ∧ ∃ l', ∀ ws,
      selectedTools (ToolsManagerEngine.step (mkEngine (tools [A; B]) ws) (Move (-5) 1))
      = tools l'
      ∧ selectedTools (FileBackedEngine.step (mkEngine (tools [A; B]) ws) (Move (-5) 1))
        = tools l'.
Proof.
  intros A B.
  assert (-5 < Z.of_nat (length [A; B]))%Z as H by (simpl; lia).
  exact (conj H (proj2 (proj2 (handlers_on_tools [A; B] (Move (-5) 1))) H)).
Defined.

(** ** Drops *)

(** X12. A drop never starts a write of the file, whatever the dragged item
    and the target are; and it loses no tool and brings none twice: the
    tools after it are those before it, so that ids that were different
    stay different. *)
Theorem onDrop_never_writes (a : list slot) (ws : list (list slot))
    (itemId : string) (dropIndex : Z) :
  let st := FileBackedEngine.drop_step (mkEngine a ws) itemId dropIndex in
  writes st = ws
  ∧ omap (λ s : slot, s) (selectedTools st) ≡ₚ omap (λ s : slot, s) a
  ∧ (NoDup (ids a) → NoDup (ids (selectedTools st))).
Proof.
  intros st.
  assert (writes st = ws ∧ omap (λ s : slot, s) (selectedTools st) ≡ₚ omap (λ s : slot, s) a)
    as [Hw Hp].
  { unfold st, FileBackedEngine.drop_step, commit, FileBacked.onDrop.
    cbn [selectedTools writes].
    destruct (JsArray.findIndex _ a) as [i|]; [|simpl; by rewrite app_nil_r].
    rewrite bind_lift_Normal.
    destruct (negb (i =? dropIndex)%Z); [|simpl; by rewrite app_nil_r].
    pose proof (splice_twice_tools a i dropIndex) as Hp.
    destruct (JsArray.splice a i 1 []) as [a1 removed]. cbn [fst snd] in Hp.
    destruct (JsArray.splice a1 dropIndex 0 _) as [a2 r2]. cbn [fst snd] in Hp.
    simpl. by rewrite app_nil_r. }
  split; [exact Hw|]. split; [exact Hp|].
  unfold ids. intros Hnd. by rewrite Hp.
Qed.

Lemma onDrop_never_writes_witness :
  let A := mkTool "1" "Workday" "" "#" in
  let B := mkTool "2" "Time Mgr" "" "#" in
  let st := FileBackedEngine.drop_step (mkEngine (tools [A; B]) []) "2" 0 in
  NoDup (ids (tools [A; B]))
  ∧ selectedTools st = tools [B; A]
  ∧ writes st = []
  ∧ NoDup (ids (selectedTools st)).
Proof.
  intros A B st.
  assert (NoDup (ids (tools [A; B]))) as H
    by (apply (bool_decide_unpack _); vm_compute; exact I).
  pose proof (onDrop_never_writes (tools [A; B]) [] "2" 0) as (Hw & _ & Hn).
  exact (conj H (conj eq_refl (conj Hw (Hn H)))).
Defined.

(** X13. Dropping an item that is in a selection of tools on a row of the
    list moves its first entry to that row, as a splice move; dropped on its
    own row it stays. Nothing is written. *)
Theorem onDrop_moves (l : list ITool) (ws : list (list slot)) (itemId : string)
    (i : nat) (dropIndex : Z) :
  indexOf l itemId = Some i →
  (0 ≤ dropIndex < Z.of_nat (length l))%Z →
  FileBackedEngine.drop_step (mkEngine (tools l) ws) itemId dropIndex
  = mkEngine (tools (splice_move l i (Z.to_nat dropIndex))) ws.
Proof.
  intros Hi Hj. pose proof (indexOf_lt l itemId i Hi) as Hlt.
  unfold FileBackedEngine.drop_step, commit, FileBacked.onDrop.
  cbn [selectedTools writes].
  rewrite findIndex_tools, bind_lift_Normal. unfold findIndexOf. rewrite Hi.
  destruct (Z.eqb_spec (Z.of_nat i) dropIndex) as [<-|Hne]; cbn [negb].
  - simpl. by rewrite Nat2Z.id, splice_move_same, app_nil_r.
  - pose proof (splice_twice_in_range (tools l) i (Z.to_nat dropIndex)) as Hs.
    rewrite length_tools, Z2Nat.id in Hs by lia. specialize (Hs Hlt ltac:(lia)).
    destruct (JsArray.splice (tools l) (Z.of_nat i) 1 []) as [a1 removed].
    cbn [fst snd] in Hs.
    destruct (JsArray.splice a1 dropIndex 0 _) as [a2 r2]. cbn [fst snd] in Hs.
    simpl. by rewrite Hs, splice_move_tools, app_nil_r.
Qed.

Lemma onDrop_moves_witness :
  let A := mkTool "1" "Workday" "" "#" in
  let B := mkTool "2" "Time Mgr" "" "#" in
  let C := mkTool "3" "Fidelity" "" "#" in
  indexOf [A; B; C] "3" = Some 2
  ∧ (0 ≤ 0 < Z.of_nat (length [A; B; C]))%Z
  ∧ FileBackedEngine.drop_step (mkEngine (tools [A; B; C]) []) "3" 0
    = mkEngine (tools (splice_move [A; B; C] 2 (Z.to_nat 0))) [].
Proof.
  intros A B C.
  assert (0 ≤ 0 < Z.of_nat (length [A; B; C]))%Z as H by (simpl; lia).
  exact (conj eq_refl (conj H (onDrop_moves [A; B; C] [] "3" 2 0 eq_refl H))).
Defined.

(** ** Mounting *)

(** X14. What [handleToolsFile] leaves behind: when the Graph client cannot
    be had, nothing is set and nothing written; when the file is read, the
    selection is its content and nothing is written; when the read fails for
    any other reason than a missing file, the default tools are written over
    the file all the same, and become the selection if that write is
    acknowledged. *)
Theorem handleToolsFile_outcomes (absoluteUrl : string) (g : Graph) :
  let st := FileBackedEngine.mount absoluteUrl g in
  let defaultTools := tools (FileBacked.defaultTools absoluteUrl) in
  (getClient g = false → st = mkEngine [] [])
  ∧ (∀ data, getClient g = true → get g = Found data → st = mkEngine data [])
  ∧ (getClient g = true → get g = Failed →
     writes st = [defaultTools]
     ∧ selectedTools st = if put g then defaultTools else []).
Proof.
  intros st defaultTools.
  unfold st, FileBackedEngine.mount, FileBacked.handleToolsFile.
  split; [|split].
  - by intros ->.
  - by intros data -> ->.
  - intros -> ->. by destruct (put g).
Qed.

Lemma handleToolsFile_outcomes_witness :
  let g := mkGraph true Failed true in
  let st := FileBackedEngine.mount "https://contoso.sharepoint.com" g in
  let defaultTools := tools (FileBacked.defaultTools "https://contoso.sharepoint.com") in
  getClient g = true
  ∧ get g = Failed
  ∧ writes st = [defaultTools]
  ∧ selectedTools st = defaultTools.
Proof.
  intros g st defaultTools.
  pose proof (proj2 (proj2 (handleToolsFile_outcomes "https://contoso.sharepoint.com" g))
                eq_refl eq_refl) as [Hw Hs].
  exact (conj eq_refl (conj eq_refl (conj Hw Hs))).
Defined.

(** X15. When the Graph client is to be had, mounting [ToolsManager.tsx]
    starts by writing the empty array, before anything is known of the
    file. When the file is read its content becomes the selection and is
    written back; when the file is not found the selection is set to a new
    empty array and the empty array is written a second time; when the read
    fails in another way the selection stays empty and nothing more is
    written. In each case the last write is the selection. *)
Theorem mount_writes_empty_first (g : Graph) :
  getClient g = true →
  let st := ToolsManagerEngine.mount g in
  head (writes st) = Some []
  ∧ last (writes st) = Some (selectedTools st)
  ∧ (∀ data, get g = Found data → st = mkEngine data [[]; data])
  ∧ (get g = NotFound → st = mkEngine [] [[]; []])
  ∧ (get g = Failed → st = mkEngine [] [[]]).
Proof.
  intros Hc st. unfold st, ToolsManagerEngine.mount, ToolsManagerEngine.fetchSelectedTools.
  rewrite Hc. destruct (get g) as [data| |]; repeat split; try done.
  by intros ? [= ->].
Qed.

Lemma mount_writes_empty_first_witness :
  let A := mkTool "1" "Workday" "" "#" in
  let g := mkGraph true (Found (tools [A])) true in
  getClient g = true
  ∧ get g = Found (tools [A])
  ∧ ToolsManagerEngine.mount g = mkEngine (tools [A]) [[]; tools [A]].
Proof.
  intros A g.
  exact (conj eq_refl (conj eq_refl
           (proj1 (proj2 (proj2 (mount_writes_empty_first g eq_refl))) (tools [A]) eq_refl))).
Defined.

(** ** More on filtering *)

Section FilterMoreFacts.

Import JsString.
Local Open Scope string_scope.

Implicit Types (s t q u v : string) (l : list ITool).

Lemma string_app_assoc s t u : (s ++ t) ++ u = s ++ t ++ u.
Proof.
  induction s as [|c s IH]; [done|].
  change (String c ((s ++ t) ++ u) = String c (s ++ t ++ u)). by rewrite IH.
Qed.

Lemma includes_empty s : includes s "" = true.
Proof. destruct s; reflexivity. Qed.

(** What includes a string includes every part of it. *)
Lemma includes_part s pre q post :
  includes s (pre ++ q ++ post) = true → includes s q = true.
Proof.
  rewrite !includes_spec. intros (p & r & ->).
  exists (p ++ pre), (post ++ r). by rewrite !string_app_assoc.
Qed.

Lemma filter_filter_implied {A} (P : A → Prop) (f g : A → bool) (k : list A) :
  Forall P k →
  (∀ x, P x → f x = true → g x = true) →
  List.filter f (List.filter g k) = List.filter f k.
Proof.
  intros Hk H. induction Hk as [|x k Hx Hk IH]; [done|]. simpl.
  destruct (g x) eqn:Eg; simpl.
  - by rewrite IH.
  - rewrite IH. destruct (f x) eqn:Ef; [|done].
    apply H in Ef; [congruence|done].
Qed.

Lemma filter_sublist {A} (f : A → bool) (k : list A) : List.filter f k `sublist_of` k.
Proof.
  induction k as [|x k IH]; [done|]. simpl.
  destruct (f x); [by apply sublist_skip|by apply sublist_cons].
Qed.

Lemma ascii_only_app s t : ascii_only (s ++ t) = ascii_only s && ascii_only t.
Proof.
  induction s as [|c s IH]; [done|].
  change (ascii_only (String c (s ++ t)) = ascii_only (String c s) && ascii_only t).
  cbn [ascii_only]. by rewrite IH, andb_assoc.
Qed.

(** *** Letters that differ in case alone are of the same kind *)

Lemma capital_of_codes (u l : ascii) :
  capital_of u l →
  (65 ≤ N_of_ascii u ≤ 90)%N ∧ (97 ≤ N_of_ascii l ≤ 122)%N.
Proof.
  intros (n & Hn & -> & ->). rewrite !N_ascii_embedding by lia. lia.
Qed.

Lemma letter_class (c : ascii) :
  (65 ≤ N_of_ascii c ≤ 90)%N ∨ (97 ≤ N_of_ascii c ≤ 122)%N →
  cased c = true ∧ case_ignorable c = false
  ∧ ∀ x : ascii, greek_of c x = None ∧ greek_of x c = None.
Proof.
  intros H. unfold cased, case_ignorable, greek_of. split; [|split].
  - destruct H as [H|H].
    + apply orb_true_iff. left. apply andb_true_iff. split; apply N.leb_le; lia.
    + apply orb_true_iff. right. apply andb_true_iff. split; apply N.leb_le; lia.
  - repeat (apply orb_false_iff; split); apply N.eqb_neq; lia.
  - intros x. split.
    + destruct (N.eqb_spec (N_of_ascii c) 206); [lia|].
      destruct (N.eqb_spec (N_of_ascii c) 207); [lia|]. done.
    + destruct (N.eqb_spec (N_of_ascii c) 145); [lia|].
      destruct (N.eqb_spec (N_of_ascii c) 177); [lia|].
      destruct (N.eqb_spec (N_of_ascii c) 163); [lia|].
      destruct (N.eqb_spec (N_of_ascii c) 131); [lia|].
      destruct (N.eqb_spec (N_of_ascii c) 130); [lia|].
      destruct (N_of_ascii x =? 206)%N; [done|].
      by destruct (N_of_ascii x =? 207)%N.
Qed.

Lemma same_letter_letters (c d : ascii) :
  same_letter c d →
  c = d
  ∨ (((65 ≤ N_of_ascii c ≤ 90)%N ∨ (97 ≤ N_of_ascii c ≤ 122)%N)
     ∧ ((65 ≤ N_of_ascii d ≤ 90)%N ∨ (97 ≤ N_of_ascii d ≤ 122)%N)).
Proof.
  intros [->|[H|H]]; [by left| |]; apply capital_of_codes in H; right; lia.
Qed.

Lemma same_letter_class (c d : ascii) :
  same_letter c d → cased c = cased d ∧ case_ignorable c = case_ignorable d.
Proof.
  intros [->|[Hc Hd]]%same_letter_letters; [done|].
  destruct (letter_class c Hc) as (-> & -> & _).
  by destruct (letter_class d Hd) as (-> & -> & _).
Qed.

Lemma greek_of_same (c c' d d' : ascii) :
  same_letter c c' → same_letter d d' → greek_of c d = greek_of c' d'.
Proof.
  intros [->|[Hc Hc']]%same_letter_letters.
  - intros [->|[Hd Hd']]%same_letter_letters; [done|].
    destruct (letter_class d Hd) as (_ & _ & H1).
    destruct (letter_class d' Hd') as (_ & _ & H2).
    by rewrite (proj2 (H1 c')), (proj2 (H2 c')).
  - intros _.
    destruct (letter_class c Hc) as (_ & _ & H1).
    destruct (letter_class c' Hc') as (_ & _ & H2).
    by rewrite (proj1 (H1 d)), (proj1 (H2 d')).
Qed.

Lemma greek_of_Some_same (c c' d d' : ascii) (g : greek) :
  greek_of c' d' = Some g → same_letter c c' → same_letter d d' → c = c' ∧ d = d'.
Proof.
  intros Hg Hc Hd.
  apply same_letter_letters in Hc as [->|[_ Hc']].
  - split; [done|]. apply same_letter_letters in Hd as [->|[_ Hd']]; [done|].
    destruct (letter_class d' Hd') as (_ & _ & H). rewrite (proj2 (H c')) in Hg. done.
  - destruct (letter_class c' Hc') as (_ & _ & H). rewrite (proj1 (H d')) in Hg. done.
Qed.

Lemma cased_follows_same_text s s' :
  same_text s s' → cased_follows s = cased_follows s'.
Proof.
  revert s'. induction s as [|c s IH]; intros [|c' s']; simpl; try done.
  intros [Hc Hs]. destruct (same_letter_class c c' Hc) as [-> ->].
  rewrite (IH s' Hs). destruct (case_ignorable c'); [done|]. f_equal.
  destruct s as [|d s2], s' as [|d' s2']; simpl in Hs; try done.
  destruct Hs as [Hd _]. by rewrite (greek_of_same c c' d d' Hc Hd).
Qed.

Lemma toLowerCase_from_two (b : bool) (c d : ascii) s :
  toLowerCase_from b (String c (String d s))
  = match greek_of c d with
    | Some CapitalSigma =>
        (if b && negb (cased_follows s) then "ς" else "σ") ++ toLowerCase_from true s
    | Some CapitalAlpha => "α" ++ toLowerCase_from true s
    | Some _ => String c (String d (toLowerCase_from true s))
    | None => String (lower c) (toLowerCase_from (after_char b c) (String d s))
    end.
Proof. reflexivity. Qed.

(** Strings that differ in the case of ASCII letters alone have the same
    [toLowerCase], whatever their other characters are. *)
Lemma toLowerCase_from_same_text (n : nat) (b : bool) s s' :
  (String.length s ≤ n)%nat → same_text s s' →
  toLowerCase_from b s = toLowerCase_from b s'.
Proof.
  revert b s s'. induction n as [|n IH]; intros b s s' Hn H.
  - destruct s as [|c s]; [|simpl in Hn; lia]. by destruct s'.
  - destruct s as [|c s], s' as [|c' s0]; try done.
    destruct H as [Hc Hs]. simpl in Hn.
    destruct s as [|d s2], s0 as [|d' s2']; try done.
    + cbn [toLowerCase_from]. f_equal. by apply lower_same_letter.
    + pose proof Hs as [Hd Hs2]. simpl in Hn.
      rewrite (toLowerCase_from_two b c d s2), (toLowerCase_from_two b c' d' s2').
      rewrite (greek_of_same c c' d d' Hc Hd).
      destruct (greek_of c' d') as [g|] eqn:G.
      * destruct (greek_of_Some_same c c' d d' g G Hc Hd) as [-> ->].
        rewrite (IH true s2 s2') by (done || lia).
        rewrite (cased_follows_same_text s2 s2' Hs2). done.
      * destruct (same_letter_class c c' Hc) as [E1 E2].
        unfold after_char. rewrite E1, E2.
        f_equal; [by apply lower_same_letter|].
        apply IH; [simpl; lia|done].
Qed.

End FilterMoreFacts.

(** X16. With the empty search term the view is the whole catalog. *)
Theorem filteredAvailableTools_empty_term (availableTools : list ITool) :
  filteredAvailableTools availableTools "" = availableTools.
Proof.
  unfold filteredAvailableTools. induction availableTools as [|t l IH]; [done|].
  simpl. rewrite includes_empty. by f_equal.
Qed.

(** X17. For a catalog with titles of ASCII characters and search terms of
    ASCII characters, a longer search term never shows more: the view for a
    term that has [q] as a part is a sublist of the view for [q], and it is
    what searching for the longer term in the view for [q] gives. *)
Theorem filteredAvailableTools_narrows (availableTools : list ITool)
    (pre q post : string) :
  Forall (λ t, ascii_only (title t) = true) availableTools →
  ascii_only (pre ++ q ++ post) = true →
  filteredAvailableTools availableTools (pre ++ q ++ post)
    `sublist_of` filteredAvailableTools availableTools q
  ∧ filteredAvailableTools (filteredAvailableTools availableTools q) (pre ++ q ++ post)
    = filteredAvailableTools availableTools (pre ++ q ++ post).
Proof.
  intros Hl Hq.
  pose proof Hq as Hq'. rewrite !ascii_only_app, !andb_true_iff in Hq'.
  destruct Hq' as (_ & Hq' & _).
  assert (filteredAvailableTools (filteredAvailableTools availableTools q)
            (pre ++ q ++ post)
          = filteredAvailableTools availableTools (pre ++ q ++ post)) as H.
  { unfold filteredAvailableTools.
    apply (filter_filter_implied (λ t, ascii_only (title t) = true)); [done|].
    intros t Ht Hi. rewrite !toLowerCase_ascii in * by done.
    rewrite !lower_each_app in Hi. by eapply includes_part. }
  split; [|exact H]. rewrite <- H. apply filter_sublist.
Qed.

Lemma filteredAvailableTools_narrows_witness :
  let W := mkTool "1" "Workday" "" "#" in
  let T := mkTool "2" "Time Mgr" "" "#" in
  Forall (λ t, ascii_only (title t) = true) [W; T]
  ∧ ascii_only ("w" ++ "or" ++ "k")%string = true
  ∧ filteredAvailableTools [W; T] ("w" ++ "or" ++ "k")
      `sublist_of` filteredAvailableTools [W; T] "or".
Proof.
  intros W T.
  assert (Forall (λ t, ascii_only (title t) = true) [W; T]) as H0
    by (repeat constructor).
  exact (conj H0 (conj eq_refl
           (proj1 (filteredAvailableTools_narrows [W; T] "w" "or" "k" H0 eq_refl)))).
Defined.

(** X18. The case of the letters of the search term plays no part: two
    terms that differ in the case of letters alone give the same view. *)
Theorem filteredAvailableTools_term_case (availableTools : list ITool) (q q' : string) :
  same_text q q' →
  filteredAvailableTools availableTools q = filteredAvailableTools availableTools q'.
Proof.
  intros H. unfold filteredAvailableTools, JsString.toLowerCase.
  by rewrite (toLowerCase_from_same_text (String.length q) false q q' (le_n _) H).
Qed.

Lemma filteredAvailableTools_term_case_witness :
  let W := mkTool "1" "Workday" "" "#" in
  let T := mkTool "2" "Time Mgr" "" "#" in
  same_text "wOrK" "WORK"
  ∧ filteredAvailableTools [W; T] "wOrK" = filteredAvailableTools [W; T] "WORK".
Proof.
  intros W T.
  assert (same_text "wOrK" "WORK") as H by (by apply lower_each_same_text).
  exact (conj H (filteredAvailableTools_term_case [W; T] "wOrK" "WORK" H)).
Defined.

(** ** The catalog *)

Lemma or_else_not_empty (x : option string) (d : string) :
  d ≠ EmptyString → or_else x d ≠ EmptyString.
Proof. intros H. by destruct x as [[|c s]|]. Qed.

(** X19. The catalog read from the list has one tool for each row, in the
    order of the rows, with the id and the title of the row, and no tool of
    it has an empty icon or an empty url: a row whose [IconUrl] is missing
    or empty gets the placeholder image of the site, a row whose [ToolUrl]
    is missing or empty gets [#], and a value that is there is kept. When
    the request fails the catalog stays as it was. *)
Theorem fetchAvailableTools_catalog (absoluteUrl : string) (items : list IToolListItem)
    (availableTools : list ITool) :
  let catalog := fetchAvailableTools absoluteUrl (Some items) availableTools in
  fetchAvailableTools absoluteUrl None availableTools = availableTools
  ∧ length catalog = length items
  ∧ id <$> catalog = Id <$> items
  ∧ title <$> catalog = Title <$> items
  ∧ Forall (λ t, icon t ≠ EmptyString ∧ url t ≠ EmptyString) catalog
  ∧ (∀ (n : nat) (item : IToolListItem),
       items !! n = Some item →
       (IconUrl item = None ∨ IconUrl item = Some EmptyString →
        icon <$> catalog !! n
        = Some (absoluteUrl ++ "/_layouts/15/images/placeholder.png")%string)
       ∧ (ToolUrl item = None ∨ ToolUrl item = Some EmptyString →
          url <$> catalog !! n = Some "#"%string)
       ∧ (∀ (c : ascii) (s : string),
            IconUrl item = Some (String c s) → icon <$> catalog !! n = Some (String c s))
       ∧ (∀ (c : ascii) (s : string),
            ToolUrl item = Some (String c s) → url <$> catalog !! n = Some (String c s))).
Proof.
  intros catalog. unfold catalog, fetchAvailableTools.
  split; [done|]. split; [by rewrite length_fmap|].
  split; [by rewrite <- list_fmap_compose|].
  split; [by rewrite <- list_fmap_compose|]. split.
  - apply Forall_fmap, Forall_forall. intros item _. simpl. split.
    + apply or_else_not_empty. by destruct absoluteUrl.
    + by apply or_else_not_empty.
  - intros n item Hn. rewrite list_lookup_fmap, Hn. simpl.
    split; [by intros [->| ->]|]. split; [by intros [->| ->]|].
    split; by intros c s ->.
Qed.

Lemma fetchAvailableTools_catalog_witness :
  let row := mkItem "7" "Workday" None (Some "https://contoso.sharepoint.com/w"%string) in
  let catalog := fetchAvailableTools "https://contoso.sharepoint.com" (Some [row]) [] in
  [row] !! 0 = Some row
  ∧ IconUrl row = None
  ∧ icon <$> catalog !! 0
    = Some "https://contoso.sharepoint.com/_layouts/15/images/placeholder.png"%string
  ∧ url <$> catalog !! 0 = Some "https://contoso.sharepoint.com/w"%string.
Proof.
  intros row catalog.
  pose proof (fetchAvailableTools_catalog "https://contoso.sharepoint.com" [row] [])
    as (_ & _ & _ & _ & _ & H).
  destruct (H 0 row eq_refl) as (Hi & _ & _ & Hu).
  exact (conj eq_refl (conj eq_refl (conj (Hi (or_introl eq_refl)) (Hu _ _ eq_refl)))).
Defined.

(** ** Where the tools of the selection come from *)

Section OriginFacts.

Implicit Types (a v r : list slot) (o : op) (t : ITool).

Lemma filter_elem_of (cb : slot → completion bool) a r (s : slot) :
  JsArray.filter cb a = Normal r → s ∈ r → s ∈ a.
Proof.
  revert r. induction a as [|s' a IH]; intros r; simpl.
  - intros [= <-]. by intros ?%elem_of_nil.
  - destruct (cb s') as [b|]; [|done]. simpl.
    destruct (JsArray.filter cb a) as [r'|]; [|done]. simpl.
    intros [= <-]. rewrite elem_of_cons.
    destruct b; [rewrite elem_of_cons; intros [->|?]|intros ?]; eauto.
Qed.

Lemma omap_elem_of a t : t ∈ omap (λ s : slot, s) a ↔ Some t ∈ a.
Proof.
  rewrite list_elem_of_omap. split.
  - by intros (s & Hs & ->).
  - intros H. by exists (Some t).
Qed.

(** A tool that a handler leaves in the selection was there, or is the tool
    just added. *)
Lemma handle_elem_of a o v t :
  last_set (ToolsManagerEngine.handle a o).1 = Some v →
  Some t ∈ v → Some t ∈ a ∨ o = Add t.
Proof.
  destruct o as [tool|toolId|i j]; simpl.
  - unfold ToolsManager.addTool, lift.
    destruct (JsArray.find _ a) as [[t'|]|]; simpl; [done| |done].
    intros [= <-]. rewrite elem_of_app, list_elem_of_singleton.
    intros [?|Heq]; [by left|]. injection Heq as ->. by right.
  - unfold ToolsManager.removeTool, lift.
    destruct (JsArray.filter _ a) as [r|] eqn:E; simpl; [|done].
    intros [= <-] Hin. left. by eapply filter_elem_of.
  - unfold ToolsManager.moveItem.
    destruct (_ || _)%bool; [done|].
    pose proof (splice_twice_tools a i j) as Hp.
    destruct (JsArray.splice a i 1 []) as [a1 removed]. cbn [fst snd] in Hp.
    destruct (JsArray.splice a1 j 0 _) as [a2 r2]. cbn [fst snd] in Hp.
    simpl. intros [= <-] Hin. left.
    apply omap_elem_of. rewrite <- Hp. by apply omap_elem_of.
Qed.

End OriginFacts.

(** X20. The handlers invent no tool and change none: every tool in the
    selection after a sequence of [addTool], [removeTool] and [moveItem]
    calls was in the selection at the start, or was given to an [addTool]
    of the sequence, with all its fields as they were. *)
Theorem tools_come_from_somewhere (st : Engine) (os : list op) (t : ITool) :
  (Some t ∈ selectedTools (ToolsManagerEngine.run st os) →
   Some t ∈ selectedTools st ∨ Add t ∈ os)
  ∧ (Some t ∈ selectedTools (FileBackedEngine.run st os) →
     Some t ∈ selectedTools st ∨ Add t ∈ os).
Proof.
  rewrite (selection_run_FileBacked st st os eq_refl).
  assert (Some t ∈ selectedTools (ToolsManagerEngine.run st os) →
          Some t ∈ selectedTools st ∨ Add t ∈ os) as H; [|by split].
  revert st. induction os as [|o os IH]; intros st; [by left|].
  simpl. intros Hin. apply IH in Hin as [Hin|Hin]; [|right; by right].
  rewrite selection_step_ToolsManager in Hin.
  destruct (last_set _) as [v|] eqn:E; simpl in Hin; [|by left].
  destruct (handle_elem_of _ _ _ _ E Hin) as [?|Ho]; [by left|].
  right. rewrite Ho. apply list_elem_of_here.
Qed.

Lemma tools_come_from_somewhere_witness :
  let A := mkTool "1" "Workday" "" "#" in
  let B := mkTool "2" "Time Mgr" "" "#" in
  let st := mkEngine (tools [A]) [] in
  let os := [Add B; Move 1 0; Remove "1"] in
  Some B ∈ selectedTools (ToolsManagerEngine.run st os)
  ∧ (Some B ∈ selectedTools st ∨ Add B ∈ os).
Proof.
  intros A B st os.
  assert (Some B ∈ selectedTools (ToolsManagerEngine.run st os)) as H
    by apply list_elem_of_here.
  exact (conj H (proj1 (tools_come_from_somewhere st os B) H)).
Defined.
